(** * tuxliketimeout: a shallow embedding of [tuxliketimeout.cpp]
    The program is a launcher: [timeout TIMEOUT PROGRAM ARGUMENTS...].
    It re-quotes its arguments into one command line ([ArgvQuote]),
    creates the child, waits for it with a deadline, terminates it when
    the deadline passes, and closes the two handles of the child through
    [HandleGuard] destructors.
    Layout: wide characters and strings, the quoting loop as a machine
    over the iterator, the host (Win32 and C++ runtime) as an explicit
    world, [wmain] in a small state monad, then the theorems. *)

From Stdlib Require Import String Ascii ZArith Arith Bool List Lia.
Import ListNotations.

Local Open Scope Z_scope.

(** ** Wide characters and strings *)

(** [wchar_t] is a 16-bit code unit; [std::wstring] is a sequence of them. *)
Definition wchar := Z.
Definition wstring := list wchar.

(** Wide literals written in ASCII. *)
Definition L (s : string) : wstring :=
  map (fun a => Z.of_N (N_of_ascii a)) (list_ascii_of_string s).

Definition SPACE : wchar := 32.       (* space *)
Definition TAB : wchar := 9.          (* \t *)
Definition NEWLINE : wchar := 10.     (* \n *)
Definition VTAB : wchar := 11.        (* \v *)
Definition DQUOTE : wchar := 34.      (* the double quotation mark *)
Definition BACKSLASH : wchar := 92.   (* the backslash *)

(** [s.append(n, c)]: the characters appended are [n] copies of [c]. *)
Definition copies (n : nat) (c : wchar) : wstring := repeat c n.

(** [s.find_first_of(chars)]: index of the first character of [s] that
    occurs in [chars]; [None] stands for [npos]. *)
Fixpoint find_first_of_from (s chars : wstring) (pos : nat) : option nat :=
  match s with
  | [] => None
  | c :: rest =>
      if existsb (Z.eqb c) chars then Some pos
      else find_first_of_from rest chars (S pos)
  end.

Definition find_first_of (s chars : wstring) : option nat :=
  find_first_of_from s chars 0.

Definition is_npos (r : option nat) : bool :=
  match r with None => true | Some _ => false end.

Definition empty (s : wstring) : bool :=
  match s with [] => true | _ => false end.

(** ** ArgvQuote (lines 51-92) *)

Module Quote.

(** The characters searched for on line 59: space, \t, \n, \v and the
    double quotation mark. *)
Definition special : wstring := [SPACE; TAB; NEWLINE; VTAB; DQUOTE].

(** Program points of the [for] loop of lines 64-88. *)
Inductive point :=
| While_test   (* line 67: the condition of the inner [while] *)
| If_chain     (* line 72: after the inner loop *)
| After_loop.  (* line 90: the [break] of line 77 was taken *)

(** Arithmetic on [unsigned]: 32 bits, modulo 2^32. *)
Definition wrap (x : Z) : Z := x mod 2 ^ 32.

(** The variables the loop changes. [It] is the iterator, kept as its
    distance from [Argument.begin()]; [NumberBackslashes] is an
    [unsigned]. *)
Record state := mk_state {
  It : nat;
  NumberBackslashes : Z;
  CommandLine : wstring;
  at_point : point
}.

(** [CommandLine.append(count, L'\\')] with [count] an [unsigned]. *)
Definition backslashes (count : Z) : wstring :=
  copies (Z.to_nat count) BACKSLASH.

(** One step of the loop. [*It] at [Argument.end()] does not occur: both
    tests compare [It] with [end()] first. The step [++It] of the [for]
    header and the reset [NumberBackslashes = 0] of line 65 are done
    when the body falls through to the next iteration. *)
Definition step (Argument : wstring) (s : state) : state :=
  match at_point s with
  | While_test =>
      match nth_error Argument (It s) with
      | Some c =>
          if c =? BACKSLASH
          then mk_state (S (It s)) (wrap (NumberBackslashes s + 1))
                        (CommandLine s) While_test
          else mk_state (It s) (NumberBackslashes s) (CommandLine s) If_chain
      | None =>
          mk_state (It s) (NumberBackslashes s) (CommandLine s) If_chain
      end
  | If_chain =>
      match nth_error Argument (It s) with
      | None =>
          mk_state (It s) (NumberBackslashes s)
            (CommandLine s ++ backslashes (wrap (NumberBackslashes s * 2)))
            After_loop
      | Some c =>
          if c =? DQUOTE
          then mk_state (S (It s)) 0
                 (CommandLine s
                    ++ backslashes (wrap (NumberBackslashes s * 2 + 1)) ++ [c])
                 While_test
          else mk_state (S (It s)) 0
                 (CommandLine s ++ backslashes (NumberBackslashes s) ++ [c])
                 While_test
      end
  | After_loop => s
  end.

(** The loop, run for at most [fuel] steps; [None] when the fuel runs
    out before the [break]. *)
Fixpoint loop (fuel : nat) (Argument : wstring) (s : state) : option state :=
  match at_point s with
  | After_loop => Some s
  | _ =>
      match fuel with
      | O => None
      | S fuel' => loop fuel' Argument (step Argument s)
      end
  end.

(** Steps that always suffice (see [loop_reaches_end]): two per
    character and two for the last iteration. *)
Definition enough (Argument : wstring) : nat :=
  (2 * length Argument + 2)%nat.

(** The test of lines 57-59. *)
Definition unquoted (Argument : wstring) (Force : bool) : bool :=
  Bool.eqb Force false
  && Bool.eqb (empty Argument) false
  && is_npos (find_first_of Argument special).

Definition ArgvQuote_fuel (fuel : nat)
    (Argument : wstring) (CommandLine0 : wstring) (Force : bool)
  : option wstring :=
  if unquoted Argument Force
  then Some (CommandLine0 ++ Argument)
  else
    match loop fuel Argument (mk_state 0 0 (CommandLine0 ++ [DQUOTE]) While_test) with
    | Some s => Some (CommandLine s ++ [DQUOTE])
    | None => None
    end.

(** [ArgvQuote(Argument, CommandLine, Force)]: the new contents of
    [CommandLine]. *)
Definition ArgvQuote (Argument CommandLine0 : wstring) (Force : bool)
  : option wstring :=
  ArgvQuote_fuel (enough Argument) Argument CommandLine0 Force.

(** What the loop appends for the characters [s] still to be read when
    the counter stands at [nb]. *)
Fixpoint body (s : wstring) (nb : Z) : wstring :=
  match s with
  | [] => backslashes (wrap (nb * 2))
  | c :: rest =>
      if c =? BACKSLASH then body rest (wrap (nb + 1))
      else if c =? DQUOTE
           then backslashes (wrap (nb * 2 + 1)) ++ [c] ++ body rest 0
           else backslashes nb ++ [c] ++ body rest 0
  end.

(** The same text when the counter does not wrap: [nb] backslashes have
    been read and not yet written. *)
Fixpoint escaped (s : wstring) (nb : nat) : wstring :=
  match s with
  | [] => copies (nb * 2) BACKSLASH
  | c :: rest =>
      if c =? BACKSLASH then escaped rest (S nb)
      else if c =? DQUOTE
           then copies (nb * 2 + 1) BACKSLASH ++ [c] ++ escaped rest 0
           else copies nb BACKSLASH ++ [c] ++ escaped rest 0
  end.

(** Arguments for which the counter cannot wrap. A command line of
    Windows holds at most 32767 characters, so the arguments [wmain]
    receives are of this kind. *)
Definition short (Argument : wstring) : Prop :=
  Z.of_nat (length Argument) < 2 ^ 31.

Definition ends_with_backslash (s : wstring) : bool :=
  match rev s with
  | c :: _ => c =? BACKSLASH
  | [] => false
  end.

End Quote.
Import Quote.

(** Steps still to go from a state: the variant of the loop. *)
Definition variant (Argument : wstring) (s : state) : nat :=
  (2 * (length Argument - It s)
   + match at_point s with While_test => 2 | If_chain => 1 | After_loop => 0 end)%nat.

(** At [If_chain] the inner loop has stopped: [It] is at the end or at a
    character that is not a backslash. *)
Definition inner_done (Argument : wstring) (s : state) : Prop :=
  at_point s = If_chain -> nth_error Argument (It s) <> Some BACKSLASH.

(** What the loop has still to append from a state. *)
Definition appended (Argument : wstring) (s : state) : wstring :=
  match at_point s with
  | After_loop => []
  | _ => body (skipn (It s) Argument) (NumberBackslashes s)
  end.

(** What one call appends, as a function of the argument and the flag. *)
Definition encoding (Argument : wstring) (Force : bool) : wstring :=
  if unquoted Argument Force
  then Argument
  else [DQUOTE] ++ body Argument 0 ++ [DQUOTE].

(** The same for a short argument. *)
Definition short_encoding (Argument : wstring) (Force : bool) : wstring :=
  if unquoted Argument Force
  then Argument
  else [DQUOTE] ++ escaped Argument 0 ++ [DQUOTE].

(** ** The host: Win32 and the C++ runtime *)

Definition DWORD := Z.     (* unsigned, 32 bits *)
Definition HANDLE := Z.
Definition BOOL := Z.      (* a C int; zero is FALSE *)

(** Exit codes, lines 30-33. *)
Definition EXIT_TIMEDOUT : Z := 124.
Definition EXIT_CANCELED : Z := 125.
Definition EXIT_CANNOT_INVOKE : Z := 126.
Definition EXIT_ENOENT : Z := 127.

(** Constants of [windows.h] that the source names; the values are those
    of the Windows SDK headers (winbase.h, winerror.h). *)
Definition WAIT_OBJECT_0 : DWORD := 0.
Definition WAIT_TIMEOUT : DWORD := 258.
Definition WAIT_FAILED : DWORD := 4294967295.
Definition ERROR_FILE_NOT_FOUND : DWORD := 2.

(** The operator [!] of C on an integer. *)
Definition not_ (x : Z) : bool := x =? 0.

(** [return error_code;] in a function that returns [int]: a [DWORD] is
    converted to a signed 32-bit value, wrapping modulo 2^32. *)
Definition int_of_DWORD (d : DWORD) : Z :=
  (d + 2 ^ 31) mod 2 ^ 32 - 2 ^ 31.

(** The two fields of [PROCESS_INFORMATION] that [wmain] reads. *)
Record PROCESS_INFORMATION := mk_pi {
  hProcess : HANDLE;
  hThread : HANDLE
}.

(** Calls into Win32, with their arguments. *)
Inductive Call :=
| CreateProcessW (lpCommandLine : wstring)
| WaitForSingleObject (hHandle : HANDLE) (dwMilliseconds : DWORD)
| TerminateProcess (hProcess : HANDLE) (uExitCode : Z)
| GetExitCodeProcess (hProcess : HANDLE)
| CloseHandle (hObject : HANDLE).

(** What [wmain] writes to [std::wcerr], one constructor per place. *)
Inductive Message :=
| Usage (program : wstring)                 (* lines 126-127 *)
| Not_a_number                      (* lines 136 and 139 *)
| Command_not_found (command : wstring)     (* lines 170-171 *)
| CreateProcess_failed (error : DWORD)      (* lines 175-176 *)
| Wait_failed (error : DWORD)               (* lines 189-190 *)
| TerminateProcess_failed (error : DWORD)   (* lines 195-196 *)
| Probe_failed (error : DWORD)              (* lines 200-201, text of 189 *)
| GetExitCodeProcess_failed (error : DWORD) (* lines 211-212 *)
| Wait_unexpected (error : DWORD).          (* lines 217-218 *)

(** [std::stoul] returns a value or throws one of two exceptions. *)
Inductive stoul_result :=
| Converted (value : DWORD)
| invalid_argument
| out_of_range.

(** What the host answers. [std::stoul] belongs to the C++ runtime and
    is taken as given. The other fields are the answers of Win32; every
    call site of [wmain] is executed at most once in a run, so one answer
    for each site describes the host during that run. *)
Record Host := mk_host {
  stoul : wstring -> stoul_result;
  created : option PROCESS_INFORMATION;  (* [Some]: CreateProcessW is TRUE *)
  last_error : DWORD;                    (* GetLastError() *)
  waited_process : DWORD;                (* line 186 *)
  terminated : BOOL;                     (* line 194 *)
  waited_thread : DWORD;                 (* line 199 *)
  exit_code : option DWORD               (* [Some]: GetExitCodeProcess is TRUE *)
}.

(** The part of the world that [wmain] changes. *)
Record World := mk_world {
  calls : list Call;
  wcerr : list Message
}.

Definition start : World := mk_world [] [].

(** ** A monad for [wmain]: state, and no result when a loop runs on *)

Definition M (A : Type) : Type := World -> option (A * World).

Definition ret {A} (a : A) : M A := fun w => Some (a, w).

Definition bind {A B} (m : M A) (k : A -> M B) : M B :=
  fun w => match m w with
           | Some (a, w') => k a w'
           | None => None
           end.

Declare Scope M_scope.
Delimit Scope M_scope with M.
Notation "x <- m ;; k" := (bind m (fun x => k))
  (at level 61, m at next level, right associativity) : M_scope.
Notation "m ;; k" := (bind m (fun _ => k))
  (at level 61, right associativity) : M_scope.
Local Open Scope M_scope.

Definition lift {A} (o : option A) : M A :=
  fun w => match o with Some a => Some (a, w) | None => None end.

Definition call (c : Call) : M unit :=
  fun w => Some (tt, mk_world (calls w ++ [c]) (wcerr w)).

Definition print (m : Message) : M unit :=
  fun w => Some (tt, mk_world (calls w) (wcerr w ++ [m])).

(** A Win32 call: recorded, then answered by the host. *)
Definition win32 {A} (c : Call) (answer : A) : M A :=
  call c ;; ret answer.

(** [HandleGuard guard(handle);] for the rest of the scope: the
    destructor calls [CloseHandle] when the scope is left, after the
    value to return has been computed. *)
Definition HandleGuard {A} (m_handle : HANDLE) (scope : M A) : M A :=
  r <- scope ;;
  call (CloseHandle m_handle) ;;
  ret r.

(** ** wmain (lines 116-221) *)

(** The loop of lines 144-149 from [argi] on, run for at most [fuel]
    iterations. The test of line 146 is the test of the loop again. *)
Fixpoint command_line_loop (fuel : nat) (argc argi : nat)
    (argv : list wstring) (command_line : wstring) : option wstring :=
  if (argi <? argc)%nat then
    match fuel with
    | O => None
    | S fuel' =>
        match ArgvQuote (nth argi argv []) command_line false with
        | Some command_line =>
            let command_line :=
              if (argi <? argc)%nat
              then command_line ++ [SPACE]
              else command_line in
            command_line_loop fuel' argc (S argi) argv command_line
        | None => None
        end
    end
  else Some command_line.

(** Lines 143-149: [command_line] starts empty and [argi] at 2. The loop
    counts [argi] up to [argc], so [argc] iterations are enough. *)
Definition build_command_line (argc : nat) (argv : list wstring)
  : option wstring :=
  command_line_loop argc argc 2 argv [].

(** Lines 186-220: the wait and the [switch] on its result, inside the
    scope of the two guards. *)
Definition supervise (host : Host) (pi : PROCESS_INFORMATION) (time_out : DWORD)
  : M Z :=
  r <- win32 (WaitForSingleObject (hProcess pi) time_out) (waited_process host) ;;
  if r =? WAIT_FAILED then
    print (Wait_failed (last_error host)) ;;
    ret EXIT_CANCELED
  else if r =? WAIT_TIMEOUT then
    ok <- win32 (TerminateProcess (hProcess pi) 0) (terminated host) ;;
    if not_ ok then
      print (TerminateProcess_failed (last_error host)) ;;
      ret EXIT_CANCELED
    else
      probe <- win32 (WaitForSingleObject (hThread pi) 0) (waited_thread host) ;;
      if not_ probe then
        print (Probe_failed (last_error host)) ;;
        ret EXIT_CANCELED
      else ret EXIT_TIMEDOUT
  else if r =? WAIT_OBJECT_0 then
    got <- win32 (GetExitCodeProcess (hProcess pi)) (exit_code host) ;;
    match got with
    | Some error_code => ret (int_of_DWORD error_code)
    | None =>
        print (GetExitCodeProcess_failed (last_error host)) ;;
        ret EXIT_CANCELED
    end
  else
    print (Wait_unexpected (last_error host)) ;;
    ret EXIT_CANCELED.

(** [wmain], with [argc] the length of [argv]. *)
Definition wmain (host : Host) (argv : list wstring) : M Z :=
  let argc := length argv in
  if (argc <? 3)%nat then
    print (Usage (nth 0 argv [])) ;;
    ret EXIT_CANCELED
  else
    match stoul host (nth 1 argv []) with
    | invalid_argument => print Not_a_number ;; ret EXIT_CANCELED
    | out_of_range => print Not_a_number ;; ret EXIT_CANCELED
    | Converted time_out =>
        command_line <- lift (build_command_line argc argv) ;;
        pi <- win32 (CreateProcessW command_line) (created host) ;;
        match pi with
        | None =>
            if last_error host =? ERROR_FILE_NOT_FOUND then
              print (Command_not_found (nth 2 argv [])) ;;
              ret EXIT_ENOENT
            else
              print (CreateProcess_failed (last_error host)) ;;
              ret EXIT_CANNOT_INVOKE
        | Some pi =>
            HandleGuard (hProcess pi)
              (HandleGuard (hThread pi)
                 (supervise host pi time_out))
        end
    end.

(** A run of the program: [wmain] from the world in which nothing has
    been called or printed. *)
Definition run (host : Host) (argv : list wstring) : option (Z * World) :=
  wmain host argv start.

(** ** The tokenizer that reads the command line back *)

Module Tokenizer.

(** Modelled from the spec: the standard argv tokenizer. It is part of
    Windows, not of this repository; [ArgvQuote] is written against its
    convention (comment of lines 36-42). The convention, as documented
    for CommandLineToArgvW: outside quotation marks a space or a tab
    ends the argument; 2n backslashes before a quotation mark stand for
    n backslashes and the mark switches the in-quotes mode; 2n+1
    backslashes before a quotation mark stand for n backslashes and a
    literal mark; backslashes before anything else stand for themselves.
    The rules are applied to every argument alike.
    [backslashes] counts the backslashes read and not yet written;
    [in_arg] tells that an argument has begun, so that an empty pair of
    quotation marks gives an empty argument. *)
Fixpoint scan (s : wstring) (in_quotes in_arg : bool) (backslashes : nat)
    (arg : wstring) : list wstring :=
  match s with
  | [] => if in_arg then [arg ++ copies backslashes BACKSLASH] else []
  | c :: rest =>
      if c =? BACKSLASH then
        scan rest in_quotes true (S backslashes) arg
      else if c =? DQUOTE then
        if Nat.even backslashes
        then scan rest (negb in_quotes) true 0
               (arg ++ copies (backslashes / 2) BACKSLASH)
        else scan rest in_quotes true 0
               (arg ++ copies (backslashes / 2) BACKSLASH ++ [DQUOTE])
      else if ((c =? SPACE) || (c =? TAB)) && negb in_quotes then
        if in_arg
        then (arg ++ copies backslashes BACKSLASH) :: scan rest false false 0 []
        else scan rest false false 0 []
      else
        scan rest in_quotes true 0 (arg ++ copies backslashes BACKSLASH ++ [c])
  end.

(** Modelled from the spec: the tokenizer started on a whole command
    line (see [scan]). *)
Definition CommandLineToArgvW (lpCmdLine : wstring) : list wstring :=
  scan lpCmdLine false false 0 [].

End Tokenizer.
Import Tokenizer.

(** The command line as [wmain] builds it: every argument encoded and
    followed by a space. *)
Definition joined (args : list wstring) : wstring :=
  concat (map (fun a => encoding a false ++ [SPACE]) args).

(** ** What is observed of a run *)

(** Handles closed during a run, in the order of the calls. *)
Definition released (w : World) : list HANDLE :=
  flat_map (fun c => match c with CloseHandle h => [h] | _ => [] end) (calls w).

Definition is_CreateProcessW (c : Call) : bool :=
  match c with CreateProcessW _ => true | _ => false end.

(** The handles the run has received: those of [pi] when CreateProcessW
    was called and answered TRUE. *)
Definition process_created (host : Host) (w : World)
  : option PROCESS_INFORMATION :=
  if existsb is_CreateProcessW (calls w) then created host else None.

(** The failure kinds of the launcher, and the kind each message
    reports. *)
Inductive FailureKind :=
| UsageError
| InvalidTimeout
| CommandNotFound
| CannotInvoke
| WaitFailed
| UnexpectedWaitResult
| TerminateFailed
| PostTerminateCheckFailed
| ExitCodeUnavailable.

Definition kind (m : Message) : FailureKind :=
  match m with
  | Usage _ => UsageError
  | Not_a_number => InvalidTimeout
  | Command_not_found _ => CommandNotFound
  | CreateProcess_failed _ => CannotInvoke
  | Wait_failed _ => WaitFailed
  | TerminateProcess_failed _ => TerminateFailed
  | Probe_failed _ => PostTerminateCheckFailed
  | GetExitCodeProcess_failed _ => ExitCodeUnavailable
  | Wait_unexpected _ => UnexpectedWaitResult
  end.

Definition not_a_handle_call (c : Call) : Prop :=
  match c with
  | CloseHandle _ | CreateProcessW _ => False
  | _ => True
  end.

(** The three shapes of a run: it stops before CreateProcessW, or
    CreateProcessW answers FALSE, or the child is created and the run
    ends with the two destructors. *)
Inductive shape (host : Host) : Z -> World -> Prop :=
| Not_launched (m : Message) :
    kind m = UsageError \/ kind m = InvalidTimeout ->
    shape host EXIT_CANCELED (mk_world [] [m])
| Not_created (command_line : wstring) (m : Message) (code : Z) :
    created host = None ->
    (kind m = CommandNotFound /\ code = EXIT_ENOENT)
    \/ (kind m = CannotInvoke /\ code = EXIT_CANNOT_INVOKE) ->
    shape host code (mk_world [CreateProcessW command_line] [m])
| Supervised (command_line : wstring) (pi : PROCESS_INFORMATION) (code : Z)
    (made : list Call) (written : list Message) :
    created host = Some pi ->
    Forall not_a_handle_call made ->
    Forall (fun m => code = EXIT_CANCELED
                     /\ match kind m with
                        | WaitFailed | UnexpectedWaitResult | TerminateFailed
                        | PostTerminateCheckFailed | ExitCodeUnavailable => True
                        | _ => False
                        end) written ->
    shape host code
      (mk_world
         (CreateProcessW command_line
            :: made ++ [CloseHandle (hThread pi); CloseHandle (hProcess pi)])
         written).

(** ** Scenarios *)

Definition child : PROCESS_INFORMATION := mk_pi 11 12.
Definition argv_child : list wstring := [L "timeout"; L "100"; L "child"].

(** The deadline passes, the child is terminated, and the probe of the
    thread handle answers that the thread has ended. *)
Definition host_thread_ended : Host :=
  mk_host (fun _ => Converted 100) (Some child) 0
    WAIT_TIMEOUT 1 WAIT_OBJECT_0 None.

(** Modelled from the spec: the exit status of the launcher that its
    callers read (the process exit code of section 6). It is set by the
    C runtime of Windows, which is not in the repository, from the [int]
    that [wmain] returns; the exit code of a Windows process is an
    unsigned value of 32 bits, so it is that [int] modulo 2^32. *)
Definition exit_status (returned : Z) : DWORD := returned mod 2 ^ 32.

(** ** The switch of lines 186-220 in closed form *)

(** The calls the switch makes after the wait, by the answers of the
    host (equal to what [supervise] records: [run_launched]). *)
Definition switch_calls (host : Host) (pi : PROCESS_INFORMATION) : list Call :=
  if waited_process host =? WAIT_FAILED then []
  else if waited_process host =? WAIT_TIMEOUT then
    TerminateProcess (hProcess pi) 0
      :: (if not_ (terminated host) then []
          else [WaitForSingleObject (hThread pi) 0])
  else if waited_process host =? WAIT_OBJECT_0 then
    [GetExitCodeProcess (hProcess pi)]
  else [].

(** The value the switch returns and what it writes, by the answers of
    the host (equal to what [supervise] returns: [run_launched]). *)
Definition switch_verdict (host : Host) : Z * list Message :=
  if waited_process host =? WAIT_FAILED then
    (EXIT_CANCELED, [Wait_failed (last_error host)])
  else if waited_process host =? WAIT_TIMEOUT then
    if not_ (terminated host) then
      (EXIT_CANCELED, [TerminateProcess_failed (last_error host)])
    else if not_ (waited_thread host) then
      (EXIT_CANCELED, [Probe_failed (last_error host)])
    else (EXIT_TIMEDOUT, [])
  else if waited_process host =? WAIT_OBJECT_0 then
    match exit_code host with
    | Some error_code => (int_of_DWORD error_code, [])
    | None => (EXIT_CANCELED, [GetExitCodeProcess_failed (last_error host)])
    end
  else (EXIT_CANCELED, [Wait_unexpected (last_error host)]).

(** ** More scenarios *)

(** CreateProcessW answers FALSE with the given last error. *)
Definition host_not_created (error : DWORD) : Host :=
  mk_host (fun _ => Converted 100) None error 0 0 0 None.

(** The child is created and the wait, the termination, the probe and
    the reading of the exit code answer as given. *)
Definition host_created (waited : DWORD) (terminated : BOOL)
    (probed : DWORD) (code : option DWORD) : Host :=
  mk_host (fun _ => Converted 100) (Some child) 5
    waited terminated probed code.

(** * Lemmas and theorems *)

(** ** The quoter on the examples of the specification *)

Example quote_plain : ArgvQuote (L "abc") [] false = Some (L "abc").
Proof. reflexivity. Qed.

Example quote_space :
  ArgvQuote (L "b c") [] false = Some ([DQUOTE] ++ L "b c" ++ [DQUOTE]).
Proof. reflexivity. Qed.

Example quote_empty : ArgvQuote [] [] false = Some [DQUOTE; DQUOTE].
Proof. reflexivity. Qed.

Example quote_backslash_quote :
  ArgvQuote [BACKSLASH; BACKSLASH; DQUOTE] [] false
  = Some [DQUOTE; BACKSLASH; BACKSLASH; BACKSLASH; BACKSLASH; BACKSLASH;
          DQUOTE; DQUOTE].
Proof. reflexivity. Qed.

(** ** The quoting loop: termination and what it appends *)

Section Loop.

Variable Argument : wstring.

Lemma skipn_at (i : nat) (c : wchar) :
  nth_error Argument i = Some c ->
  skipn i Argument = c :: skipn (S i) Argument.
Proof.
  revert i. induction Argument as [|a l IH]; intros [|i] H; simpl in *;
    try discriminate.
  - now inversion H.
  - now apply IH.
Qed.

Lemma skipn_at_end (i : nat) :
  nth_error Argument i = None -> skipn i Argument = [].
Proof.
  intros H. apply skipn_all2. now apply nth_error_None.
Qed.

(** Closes the three routine parts of [loop_from] from the induction
    hypothesis; the appended text is left. *)
Ltac passes H1 H2 H3 :=
  split; [exact H1 | split; [exact H2 | split; [intros _; apply H3; discriminate | ]]].

Lemma loop_from (fuel : nat) :
  forall s,
    inner_done Argument s ->
    (It s <= length Argument)%nat ->
    (variant Argument s <= fuel)%nat ->
    exists s',
      loop fuel Argument s = Some s'
      /\ at_point s' = After_loop
      /\ (at_point s <> After_loop -> It s' = length Argument)
      /\ CommandLine s' = CommandLine s ++ appended Argument s.
Proof.
  induction fuel as [|fuel IH]; intros [i nb cl pt] Hdone Hle Hfuel;
    unfold variant, inner_done, appended in *; simpl in *.
  - destruct pt; try lia.
    exists (mk_state i nb cl After_loop). simpl.
    repeat split; [congruence | now rewrite app_nil_r].
  - destruct pt; simpl.
    + (* the test of the inner loop *)
      unfold step; simpl.
      destruct (nth_error Argument i) as [c|] eqn:Hc.
      * assert (Hlt : (i < length Argument)%nat)
          by (apply nth_error_Some; congruence).
        rewrite (skipn_at _ _ Hc). simpl.
        destruct (Z.eqb_spec c BACKSLASH) as [->|Hne].
        -- destruct (IH (mk_state (S i) (wrap (nb + 1)) cl While_test))
             as (s' & H1 & H2 & H3 & H4); simpl; try congruence; try lia.
           exists s'. passes H1 H2 H3. exact H4.
        -- destruct (IH (mk_state i nb cl If_chain))
             as (s' & H1 & H2 & H3 & H4); simpl; try lia.
           { intros _. rewrite Hc. congruence. }
           exists s'. passes H1 H2 H3.
           rewrite H4. simpl. rewrite (skipn_at _ _ Hc). simpl.
           destruct (Z.eqb_spec c BACKSLASH); [contradiction|]. reflexivity.
      * destruct (IH (mk_state i nb cl If_chain))
          as (s' & H1 & H2 & H3 & H4); simpl; try lia.
        { intros _. rewrite Hc. discriminate. }
        exists s'. passes H1 H2 H3. exact H4.
    + (* the chain of tests after the inner loop *)
      unfold step; simpl.
      destruct (nth_error Argument i) as [c|] eqn:Hc.
      * assert (Hlt : (i < length Argument)%nat)
          by (apply nth_error_Some; congruence).
        rewrite (skipn_at _ _ Hc). simpl.
        destruct (Z.eqb_spec c BACKSLASH) as [->|Hne];
          [exfalso; now apply Hdone|].
        destruct (Z.eqb_spec c DQUOTE) as [->|Hq].
        -- destruct (IH (mk_state (S i) 0
                           (cl ++ backslashes (wrap (nb * 2 + 1)) ++ [DQUOTE])
                           While_test))
             as (s' & H1 & H2 & H3 & H4); simpl; try congruence; try lia.
           exists s'. passes H1 H2 H3.
           rewrite H4. simpl. now rewrite <- !app_assoc.
        -- destruct (IH (mk_state (S i) 0
                           (cl ++ backslashes nb ++ [c])
                           While_test))
             as (s' & H1 & H2 & H3 & H4); simpl; try congruence; try lia.
           exists s'. passes H1 H2 H3.
           rewrite H4. simpl. now rewrite <- !app_assoc.
      * rewrite (skipn_at_end _ Hc). simpl.
        assert (Hge : (length Argument <= i)%nat) by now apply nth_error_None.
        exists (mk_state i nb (cl ++ backslashes (wrap (nb * 2))) After_loop).
        destruct fuel; simpl; repeat split; auto; intros _; lia.
    + exists (mk_state i nb cl After_loop). simpl.
      repeat split; [congruence | now rewrite app_nil_r].
Qed.

End Loop.

Lemma loop_reaches_end (Argument CommandLine0 : wstring) (fuel : nat) :
  (enough Argument <= fuel)%nat ->
  exists s',
    loop fuel Argument (mk_state 0 0 CommandLine0 While_test) = Some s'
    /\ at_point s' = After_loop
    /\ It s' = length Argument
    /\ CommandLine s' = CommandLine0 ++ body Argument 0.
Proof.
  intros Hfuel.
  destruct (loop_from Argument fuel (mk_state 0 0 CommandLine0 While_test))
    as (s' & H1 & H2 & H3 & H4).
  - intros H; discriminate H.
  - simpl; lia.
  - unfold variant, enough in *; simpl in *; lia.
  - exists s'. repeat split; auto. apply H3. discriminate.
Qed.

Lemma ArgvQuote_fuel_eq (fuel : nat) (Argument CommandLine0 : wstring) (Force : bool) :
  (enough Argument <= fuel)%nat ->
  ArgvQuote_fuel fuel Argument CommandLine0 Force
  = Some (CommandLine0 ++ encoding Argument Force).
Proof.
  intros Hfuel. unfold ArgvQuote_fuel, encoding.
  destruct (unquoted Argument Force); [reflexivity|].
  destruct (loop_reaches_end Argument (CommandLine0 ++ [DQUOTE]) fuel Hfuel)
    as (s' & -> & _ & _ & ->).
  now rewrite <- !app_assoc.
Qed.

Lemma ArgvQuote_eq (Argument CommandLine0 : wstring) (Force : bool) :
  ArgvQuote Argument CommandLine0 Force
  = Some (CommandLine0 ++ encoding Argument Force).
Proof. apply ArgvQuote_fuel_eq. apply Nat.le_refl. Qed.

Example tokenize_two :
  CommandLineToArgvW (L "a" ++ [SPACE; DQUOTE] ++ L "b c" ++ [DQUOTE; SPACE])
  = [L "a"; L "b c"].
Proof. reflexivity. Qed.

Example tokenize_escaped :
  CommandLineToArgvW
    [DQUOTE; BACKSLASH; BACKSLASH; BACKSLASH; DQUOTE; BACKSLASH; BACKSLASH; DQUOTE]
  = [[BACKSLASH; DQUOTE; BACKSLASH]].
Proof. reflexivity. Qed.

(** ** The tokenizer on the text of [ArgvQuote] *)

Lemma copies_shift (n : nat) (c : wchar) (l : wstring) :
  copies (S n) c ++ l = copies n c ++ c :: l.
Proof.
  unfold copies. induction n as [|n IH]; simpl in *; [reflexivity|].
  now rewrite <- IH.
Qed.

Lemma find_first_of_from_None (s chars : wstring) (pos : nat) :
  find_first_of_from s chars pos = None ->
  Forall (fun c => existsb (Z.eqb c) chars = false) s.
Proof.
  revert pos. induction s as [|c s IH]; intros pos H; simpl in *.
  - constructor.
  - destruct (existsb (Z.eqb c) chars) eqn:E; [discriminate|].
    constructor; eauto.
Qed.

(** An argument written without quotation marks is not empty and has
    none of the special characters. *)
Lemma unquoted_plain (Argument : wstring) (Force : bool) :
  unquoted Argument Force = true ->
  Argument <> []
  /\ Forall (fun c => existsb (Z.eqb c) special = false) Argument.
Proof.
  unfold unquoted. intros H.
  apply andb_prop in H as [H Hfind]. apply andb_prop in H as [_ Hne].
  split.
  - destruct Argument; [discriminate|congruence].
  - destruct (find_first_of Argument special) eqn:E; [discriminate|].
    eapply find_first_of_from_None. exact E.
Qed.

Lemma scan_backslashes (k : nat) :
  forall s in_quotes in_arg backslashes arg,
    scan (copies k BACKSLASH ++ s) in_quotes in_arg backslashes arg
    = scan s in_quotes (in_arg || (0 <? k)%nat) (backslashes + k) arg.
Proof.
  induction k as [|k IH]; intros; simpl.
  - now rewrite orb_false_r, Nat.add_0_r.
  - rewrite IH. rewrite orb_true_r. simpl. f_equal. lia.
Qed.

Lemma even_double (n : nat) : Nat.even (n * 2) = true.
Proof. rewrite Nat.even_mul. simpl. apply orb_true_r. Qed.

Lemma even_double_1 (n : nat) : Nat.even (n * 2 + 1) = false.
Proof.
  rewrite Nat.even_add, even_double. reflexivity.
Qed.

Lemma half_double_1 (n : nat) : ((n * 2 + 1) / 2 = n)%nat.
Proof.
  symmetry. apply (Nat.div_unique (n * 2 + 1) 2 n 1); lia.
Qed.

(** The tokenizer inside quotation marks reads back what the loop of
    [ArgvQuote] wrote: [nb] backslashes of the argument are pending on
    the side of the loop, none on the side of the tokenizer. *)
Lemma scan_escaped (a : wstring) :
  forall nb arg rest,
    scan (escaped a nb ++ DQUOTE :: rest) true true 0 arg
    = scan rest false true 0 (arg ++ copies nb BACKSLASH ++ a).
Proof.
  induction a as [|c a IH]; intros nb arg rest; cbn [escaped].
  - rewrite scan_backslashes, Nat.add_0_l. cbn [scan Z.eqb DQUOTE BACKSLASH Pos.eqb].
    rewrite even_double, Nat.div_mul by discriminate.
    now rewrite app_nil_r.
  - destruct (Z.eqb_spec c BACKSLASH) as [->|Hbs].
    + rewrite IH. now rewrite copies_shift.
    + destruct (Z.eqb_spec c DQUOTE) as [->|Hdq].
      * rewrite <- !app_assoc, scan_backslashes, Nat.add_0_l.
        cbn [scan app Z.eqb DQUOTE BACKSLASH Pos.eqb].
        rewrite even_double_1, half_double_1, IH.
        cbn [copies repeat app]. now rewrite <- !app_assoc.
      * rewrite <- !app_assoc, scan_backslashes, Nat.add_0_l.
        cbn [scan app].
        destruct (Z.eqb_spec c BACKSLASH); [contradiction|].
        destruct (Z.eqb_spec c DQUOTE); [contradiction|].
        rewrite andb_false_r, IH. cbn [copies repeat app].
        now rewrite <- !app_assoc.
Qed.

(** The tokenizer outside quotation marks reads an argument that has no
    special character up to the space that follows it. *)
Lemma scan_plain (a : wstring) :
  forall in_arg backslashes arg rest,
    Forall (fun c => existsb (Z.eqb c) special = false) a ->
    in_arg = true \/ a <> [] ->
    scan (a ++ SPACE :: rest) false in_arg backslashes arg
    = (arg ++ copies backslashes BACKSLASH ++ a) :: scan rest false false 0 [].
Proof.
  induction a as [|c a IH]; intros in_arg backslashes arg rest Hall Hbegun.
  - destruct Hbegun as [->|Hne]; [|congruence].
    simpl. now rewrite app_nil_r.
  - inversion Hall as [|? ? Hc Hrest]; subst. simpl in Hc.
    repeat (apply orb_false_elim in Hc as [? Hc]).
    simpl.
    destruct (Z.eqb_spec c BACKSLASH) as [->|Hbs].
    + rewrite IH by auto. now rewrite copies_shift.
    + replace (c =? DQUOTE) with false by congruence.
      replace (c =? SPACE) with false by congruence.
      replace (c =? TAB) with false by congruence.
      simpl. rewrite IH by auto. simpl. now rewrite <- !app_assoc.
Qed.

(** On a short argument the counter does not wrap. *)
Lemma body_escaped (s : wstring) :
  forall nb : nat,
    Z.of_nat nb + Z.of_nat (length s) < 2 ^ 31 ->
    body s (Z.of_nat nb) = escaped s nb.
Proof.
  induction s as [|c s IH]; intros nb Hnb; cbn [body escaped length] in *.
  - unfold backslashes, wrap. rewrite Z.mod_small by lia.
    f_equal. lia.
  - destruct (c =? BACKSLASH).
    + unfold wrap. rewrite Z.mod_small by lia.
      replace (Z.of_nat nb + 1) with (Z.of_nat (S nb)) by lia.
      apply IH. lia.
    + assert (E : body s 0 = escaped s 0) by (apply (IH 0%nat); lia).
      rewrite E.
      destruct (c =? DQUOTE); unfold backslashes, wrap.
      * rewrite Z.mod_small by lia.
        replace (Z.to_nat (Z.of_nat nb * 2 + 1)) with (nb * 2 + 1)%nat by lia.
        reflexivity.
      * now rewrite Nat2Z.id.
Qed.

Lemma encoding_short (Argument : wstring) (Force : bool) :
  short Argument -> encoding Argument Force = short_encoding Argument Force.
Proof.
  intros H. unfold encoding, short_encoding, short in *.
  assert (E : body Argument 0 = escaped Argument 0)
    by (apply (body_escaped Argument 0%nat); lia).
  now rewrite E.
Qed.

Lemma short_app_l (a b : wstring) : short (a ++ b) -> short a.
Proof. unfold short. rewrite length_app. lia. Qed.

Lemma short_app_r (a b : wstring) : short (a ++ b) -> short b.
Proof. unfold short. rewrite length_app. lia. Qed.

Lemma short_tail (c : wchar) (a : wstring) : short (c :: a) -> short a.
Proof. unfold short. simpl. lia. Qed.

(** One encoded argument followed by a space, read from the start of an
    argument. *)
Lemma scan_encoding (a rest : wstring) :
  short a ->
  scan (encoding a false ++ SPACE :: rest) false false 0 []
  = a :: scan rest false false 0 [].
Proof.
  intros Hshort. rewrite encoding_short by assumption.
  unfold short_encoding. destruct (unquoted a false) eqn:E.
  - apply unquoted_plain in E as [Hne Hall].
    rewrite scan_plain by auto. reflexivity.
  - simpl. rewrite <- app_assoc. simpl. rewrite scan_escaped. simpl.
    now rewrite app_nil_r.
Qed.

(** ** The command line of [wmain] *)

Lemma skipn_nth (argv : list wstring) (i : nat) :
  (i < length argv)%nat ->
  skipn i argv = nth i argv [] :: skipn (S i) argv.
Proof.
  revert i. induction argv as [|a l IH]; intros [|i] H; simpl in *;
    try lia; [reflexivity|].
  apply IH. lia.
Qed.

Lemma command_line_loop_eq (argv : list wstring) (fuel : nat) :
  forall argi command_line,
    (length argv - argi <= fuel)%nat ->
    command_line_loop fuel (length argv) argi argv command_line
    = Some (command_line ++ joined (skipn argi argv)).
Proof.
  induction fuel as [|fuel IH]; intros argi command_line Hfuel; simpl;
    destruct (Nat.ltb_spec argi (length argv)) as [Hlt|Hge]; try lia.
  - rewrite skipn_all2 by lia. unfold joined. simpl.
    now rewrite app_nil_r.
  - rewrite ArgvQuote_eq, IH by lia.
    rewrite (skipn_nth argv argi Hlt). unfold joined. simpl.
    now rewrite <- !app_assoc.
  - rewrite skipn_all2 by lia. unfold joined. simpl.
    now rewrite app_nil_r.
Qed.

Lemma build_command_line_eq (argv : list wstring) :
  (2 <= length argv)%nat ->
  build_command_line (length argv) argv = Some (joined (skipn 2 argv)).
Proof.
  intros H. unfold build_command_line.
  rewrite command_line_loop_eq by lia. reflexivity.
Qed.

Lemma tokenize_joined (args : list wstring) :
  Forall short args ->
  CommandLineToArgvW (joined args) = args.
Proof.
  unfold CommandLineToArgvW, joined.
  induction 1 as [|a args Ha Hargs IH]; simpl; [reflexivity|].
  rewrite <- app_assoc. simpl. rewrite scan_encoding by assumption.
  now rewrite IH.
Qed.

(** ** Runs of [wmain] *)

(** Equations of the monad, used as rewrite rules on runs. *)
Lemma bind_win32 {A B} (c : Call) (answer : A) (k : A -> M B) (w : World) :
  (x <- win32 c answer ;; k x) w = k answer (mk_world (calls w ++ [c]) (wcerr w)).
Proof. reflexivity. Qed.

Lemma bind_print {B} (m : Message) (k : M B) (w : World) :
  (print m ;; k) w = k (mk_world (calls w) (wcerr w ++ [m])).
Proof. reflexivity. Qed.

Lemma bind_call {B} (c : Call) (k : M B) (w : World) :
  (call c ;; k) w = k (mk_world (calls w ++ [c]) (wcerr w)).
Proof. reflexivity. Qed.

Lemma bind_lift {A B} (a : A) (k : A -> M B) (w : World) :
  (x <- lift (Some a) ;; k x) w = k a w.
Proof. reflexivity. Qed.

Lemma ret_run {A} (a : A) (w : World) : ret a w = Some (a, w).
Proof. reflexivity. Qed.

Lemma HandleGuard_run {A} (h : HANDLE) (scope : M A) (w w' : World) (a : A) :
  scope w = Some (a, w') ->
  HandleGuard h scope w = Some (a, mk_world (calls w' ++ [CloseHandle h]) (wcerr w')).
Proof. intros H. unfold HandleGuard, bind. now rewrite H. Qed.

Create Rewrite HintDb run.
#[local] Hint Rewrite @bind_win32 @bind_print @bind_call @bind_lift @ret_run : run.

(** Splits a goal on the next test of the program. *)
Ltac branch :=
  match goal with
  | |- context [?a =? ?b] => destruct (Z.eqb_spec a b)
  | |- context [not_ ?x] => destruct (not_ x) eqn:?
  | |- context [exit_code ?h] => destruct (exit_code h) eqn:?
  end.

Lemma quiet (code : Z) (cs : list Call) (ms : list Message) :
  Some (code, mk_world cs ms) = Some (code, mk_world cs (ms ++ [])).
Proof. now rewrite app_nil_r. Qed.

(** The outcome of the switch of lines 186-220: an exit code, the calls
    made and the messages written. *)
Lemma supervise_run (host : Host) (pi : PROCESS_INFORMATION)
    (time_out : DWORD) (w : World) :
  exists code made written,
    supervise host pi time_out w
    = Some (code, mk_world (calls w ++ made) (wcerr w ++ written))
    /\ Forall not_a_handle_call made
    /\ Forall (fun m => code = EXIT_CANCELED
                        /\ match kind m with
                           | WaitFailed | UnexpectedWaitResult | TerminateFailed
                           | PostTerminateCheckFailed | ExitCodeUnavailable => True
                           | _ => False
                           end) written.
Proof.
  unfold supervise. autorewrite with run.
  repeat (branch; autorewrite with run); cbn [calls wcerr];
    rewrite <- ?app_assoc; cbn [app];
    do 3 eexists;
    (split; [first [reflexivity | apply quiet] | split; repeat constructor]).
Qed.

(** A run that gets as far as CreateProcessW with answer TRUE goes on
    under the two guards. *)
Lemma run_created (host : Host) (argv : list wstring)
    (time_out : DWORD) (pi : PROCESS_INFORMATION) :
  (3 <= length argv)%nat ->
  stoul host (nth 1 argv []) = Converted time_out ->
  created host = Some pi ->
  run host argv
  = HandleGuard (hProcess pi)
      (HandleGuard (hThread pi) (supervise host pi time_out))
      (mk_world [CreateProcessW (joined (skipn 2 argv))] []).
Proof.
  intros Hargc Hstoul Hcreated. unfold run, wmain.
  apply Nat.ltb_ge in Hargc as Hargc'. rewrite Hargc', Hstoul.
  rewrite build_command_line_eq by lia.
  autorewrite with run. rewrite Hcreated. reflexivity.
Qed.

Lemma run_shape (host : Host) (argv : list wstring) :
  exists code w, run host argv = Some (code, w) /\ shape host code w.
Proof.
  destruct (length argv <? 3)%nat eqn:Hargc.
  - unfold run, wmain. rewrite Hargc. autorewrite with run.
    do 2 eexists. split; [reflexivity|]. apply Not_launched. now left.
  - apply Nat.ltb_ge in Hargc as Hge.
    destruct (stoul host (nth 1 argv [])) as [time_out| |] eqn:Hstoul.
    + destruct (created host) as [pi|] eqn:Hcreated.
      * rewrite (run_created host argv time_out pi Hge Hstoul Hcreated).
        destruct (supervise_run host pi time_out
                    (mk_world [CreateProcessW (joined (skipn 2 argv))] []))
          as (code & made & written & Hrun & Hmade & Hwritten).
        erewrite HandleGuard_run
          by (eapply HandleGuard_run; exact Hrun).
        cbn [calls wcerr app]. rewrite <- app_assoc. cbn [app].
        do 2 eexists. split; [reflexivity|].
        now apply Supervised.
      * unfold run, wmain. rewrite Hargc, Hstoul.
        rewrite build_command_line_eq by lia.
        autorewrite with run. rewrite Hcreated.
        destruct (Z.eqb_spec (last_error host) ERROR_FILE_NOT_FOUND);
          autorewrite with run; do 2 eexists;
          (split; [reflexivity|]); apply Not_created; auto.
    + unfold run, wmain. rewrite Hargc, Hstoul. autorewrite with run.
      do 2 eexists. split; [reflexivity|]. apply Not_launched. now right.
    + unfold run, wmain. rewrite Hargc, Hstoul. autorewrite with run.
      do 2 eexists. split; [reflexivity|]. apply Not_launched. now right.
Qed.

(** Calls that are not CloseHandle add nothing to the handles released. *)
Lemma closes_after (made tail : list Call) :
  Forall not_a_handle_call made ->
  flat_map (fun c => match c with CloseHandle h => [h] | _ => [] end)
    (made ++ tail)
  = flat_map (fun c => match c with CloseHandle h => [h] | _ => [] end) tail.
Proof.
  induction 1 as [|c made Hc Hmade IH]; [reflexivity|].
  destruct c; simpl in *; try contradiction; exact IH.
Qed.

(** The child ends in time and its exit code is read. *)
Lemma run_completed (host : Host) (argv : list wstring)
    (time_out : DWORD) (pi : PROCESS_INFORMATION) (c : DWORD) :
  (3 <= length argv)%nat ->
  stoul host (nth 1 argv []) = Converted time_out ->
  created host = Some pi ->
  waited_process host = WAIT_OBJECT_0 ->
  exit_code host = Some c ->
  run host argv
  = Some (int_of_DWORD c,
          mk_world [CreateProcessW (joined (skipn 2 argv));
                    WaitForSingleObject (hProcess pi) time_out;
                    GetExitCodeProcess (hProcess pi);
                    CloseHandle (hThread pi);
                    CloseHandle (hProcess pi)] []).
Proof.
  intros Hargc Hstoul Hcreated Hwait Hcode.
  rewrite (run_created host argv time_out pi Hargc Hstoul Hcreated).
  set (w := mk_world [CreateProcessW (joined (skipn 2 argv))] []).
  assert (Hs : supervise host pi time_out w
               = Some (int_of_DWORD c,
                       mk_world (calls w
                                   ++ [WaitForSingleObject (hProcess pi) time_out]
                                   ++ [GetExitCodeProcess (hProcess pi)])
                                (wcerr w))).
  { unfold supervise. autorewrite with run.
    rewrite Hwait, Hcode. reflexivity. }
  rewrite (HandleGuard_run _ _ _ _ _ (HandleGuard_run _ _ _ _ _ Hs)).
  reflexivity.
Qed.

(** The deadline passes and the child is terminated: the exit code
    depends on what the probe of line 199 returns. *)
Lemma run_expired (host : Host) (argv : list wstring)
    (time_out : DWORD) (pi : PROCESS_INFORMATION) :
  (3 <= length argv)%nat ->
  stoul host (nth 1 argv []) = Converted time_out ->
  created host = Some pi ->
  waited_process host = WAIT_TIMEOUT ->
  terminated host <> 0 ->
  exists w,
    run host argv
    = Some (if waited_thread host =? 0 then EXIT_CANCELED else EXIT_TIMEDOUT, w).
Proof.
  intros Hargc Hstoul Hcreated Hwait Hterm.
  rewrite (run_created host argv time_out pi Hargc Hstoul Hcreated).
  apply Z.eqb_neq in Hterm.
  set (w := mk_world [CreateProcessW (joined (skipn 2 argv))] []).
  assert (Hs : exists w',
             supervise host pi time_out w
             = Some (if waited_thread host =? 0
                     then EXIT_CANCELED else EXIT_TIMEDOUT, w')).
  { unfold supervise. autorewrite with run.
    rewrite Hwait. cbn [Z.eqb WAIT_TIMEOUT WAIT_FAILED Pos.eqb].
    autorewrite with run. unfold not_. rewrite Hterm. autorewrite with run.
    destruct (waited_thread host =? 0); autorewrite with run; eauto. }
  destruct Hs as [w' Hs].
  rewrite (HandleGuard_run _ _ _ _ _ (HandleGuard_run _ _ _ _ _ Hs)).
  eauto.
Qed.

Lemma int_of_DWORD_small (c : DWORD) :
  0 <= c < 2 ^ 31 -> int_of_DWORD c = c.
Proof. intros H. unfold int_of_DWORD. rewrite Z.mod_small; lia. Qed.

Lemma int_of_DWORD_large (c : DWORD) :
  2 ^ 31 <= c < 2 ^ 32 -> int_of_DWORD c = c - 2 ^ 32.
Proof.
  intros H. unfold int_of_DWORD.
  replace (c + 2 ^ 31) with ((c - 2 ^ 31) + 1 * 2 ^ 32) by lia.
  rewrite Z.mod_add by lia. rewrite Z.mod_small; lia.
Qed.

Lemma int_of_DWORD_bits (c : DWORD) :
  0 <= c < 2 ^ 32 -> int_of_DWORD c mod 2 ^ 32 = c.
Proof.
  intros H. destruct (Z_lt_ge_dec c (2 ^ 31)).
  - rewrite int_of_DWORD_small by lia. apply Z.mod_small; lia.
  - rewrite int_of_DWORD_large by lia.
    replace (c - 2 ^ 32) with (c + (-1) * 2 ^ 32) by lia.
    rewrite Z.mod_add by lia. apply Z.mod_small; lia.
Qed.

(** ** Lemmas on the text the loop writes *)

Lemma escaped_backslashes (n : nat) :
  forall s nb, escaped (copies n BACKSLASH ++ s) nb = escaped s (nb + n).
Proof.
  induction n as [|n IH]; intros s nb; simpl.
  - now rewrite Nat.add_0_r.
  - rewrite IH. f_equal. lia.
Qed.

Lemma escaped_quote (q : wstring) (nb : nat) :
  escaped (DQUOTE :: q) nb
  = copies (nb * 2 + 1) BACKSLASH ++ [DQUOTE] ++ escaped q 0.
Proof. reflexivity. Qed.

(** After a character that is not a backslash the loop starts afresh. *)
Lemma escaped_snoc_app (p : wstring) (c : wchar) (s : wstring) :
  c <> BACKSLASH ->
  forall nb, escaped ((p ++ [c]) ++ s) nb = escaped (p ++ [c]) nb ++ escaped s 0.
Proof.
  intros Hc. induction p as [|a p IH]; intros nb; simpl.
  - destruct (Z.eqb_spec c BACKSLASH); [contradiction|].
    destruct (c =? DQUOTE); simpl; now rewrite <- !app_assoc.
  - destruct (a =? BACKSLASH); [apply IH|].
    destruct (a =? DQUOTE); rewrite IH; simpl; now rewrite <- !app_assoc.
Qed.

Lemma escaped_snoc (p : wstring) (c : wchar) :
  c <> BACKSLASH ->
  forall nb, exists pre, escaped (p ++ [c]) nb = pre ++ [c].
Proof.
  intros Hc. induction p as [|a p IH]; intros nb; simpl.
  - destruct (Z.eqb_spec c BACKSLASH); [contradiction|].
    destruct (c =? DQUOTE); simpl; eexists; reflexivity.
  - destruct (a =? BACKSLASH); [apply IH|].
    destruct (a =? DQUOTE); destruct (IH 0%nat) as [pre ->];
      [exists (copies (nb * 2 + 1) BACKSLASH ++ a :: pre)
      |exists (copies nb BACKSLASH ++ a :: pre)];
      now rewrite <- app_assoc.
Qed.

Lemma ends_with_backslash_snoc (s : wstring) (c : wchar) :
  ends_with_backslash (s ++ [c]) = (c =? BACKSLASH).
Proof. unfold ends_with_backslash. now rewrite rev_unit. Qed.

(** A string that does not end in a backslash is empty or ends in
    another character. *)
Lemma no_backslash_at_end (p : wstring) :
  ends_with_backslash p = false ->
  p = [] \/ exists p' c, p = p' ++ [c] /\ c <> BACKSLASH.
Proof.
  destruct p as [|c p'] using rev_ind; [now left|].
  rewrite ends_with_backslash_snoc. intros H. right.
  exists p', c. split; [reflexivity|]. now apply Z.eqb_neq.
Qed.

Lemma escaped_app (p s : wstring) :
  ends_with_backslash p = false ->
  escaped (p ++ s) 0 = escaped p 0 ++ escaped s 0.
Proof.
  intros H. destruct (no_backslash_at_end p H) as [->|(p' & c & -> & Hc)].
  - reflexivity.
  - now apply escaped_snoc_app.
Qed.

Lemma opening_ends (p : wstring) :
  ends_with_backslash p = false ->
  ends_with_backslash ([DQUOTE] ++ escaped p 0) = false.
Proof.
  intros H. destruct (no_backslash_at_end p H) as [->|(p' & c & -> & Hc)].
  - reflexivity.
  - destruct (escaped_snoc p' c Hc 0%nat) as [pre ->].
    rewrite app_assoc, ends_with_backslash_snoc. now apply Z.eqb_neq.
Qed.

Lemma quoted_by_force (Argument : wstring) : unquoted Argument true = false.
Proof. reflexivity. Qed.

Lemma quoted_by_mark (p q : wstring) (Force : bool) :
  unquoted (p ++ DQUOTE :: q) Force = false.
Proof.
  destruct (unquoted (p ++ DQUOTE :: q) Force) eqn:E; [|reflexivity].
  apply unquoted_plain in E as [_ Hall].
  rewrite Forall_forall in Hall.
  specialize (Hall DQUOTE). simpl in Hall.
  rewrite Hall; [reflexivity|].
  apply in_or_app. right. now left.
Qed.

(** * Properties of the argument quoter *)

(** C8: for every argument, [ArgvQuote] terminates. The loop of lines
    64-88, started at [Argument.begin()], takes the [break] with the
    iterator at [Argument.end()] within [enough Argument] steps, two
    for each character and two more; more fuel changes nothing, and the
    call returns a command line. *)
Theorem C8_ArgvQuote_terminates
    (Argument CommandLine0 : wstring) (Force : bool) (extra : nat) :
  (exists s',
      loop (enough Argument + extra) Argument
        (mk_state 0 0 (CommandLine0 ++ [DQUOTE]) While_test) = Some s'
      /\ at_point s' = After_loop
      /\ It s' = length Argument)
  /\ exists CommandLine1,
      ArgvQuote Argument CommandLine0 Force = Some CommandLine1
      /\ ArgvQuote_fuel (enough Argument + extra) Argument CommandLine0 Force
         = Some CommandLine1.
Proof.
  split.
  - destruct (loop_reaches_end Argument (CommandLine0 ++ [DQUOTE])
                (enough Argument + extra)) as (s' & H1 & H2 & H3 & _);
      [lia|].
    exists s'. auto.
  - exists (CommandLine0 ++ encoding Argument Force). split.
    + apply ArgvQuote_eq.
    + apply ArgvQuote_fuel_eq. lia.
Qed.

(** C9: [ArgvQuote] only appends. For an argument and a flag there is
    one text, the same for every buffer, such that the buffer after the
    call is the buffer before it followed by that text. The argument is
    a parameter of the loop and no part of the state it changes. *)
Theorem C9_ArgvQuote_appends (Argument : wstring) (Force : bool) :
  exists appended_text,
    forall CommandLine0,
      ArgvQuote Argument CommandLine0 Force
      = Some (CommandLine0 ++ appended_text).
Proof.
  exists (encoding Argument Force). intros CommandLine0.
  apply ArgvQuote_eq.
Qed.

(** C7: the escaping law of the quoted form, for arguments shorter than
    2^31 characters (as the arguments of [wmain] are). Let [p] not end
    in a backslash, so that the [n] backslashes after it are exactly a
    run. If the argument is [p] and then [n] backslashes, and it is
    quoted, the text appended is the opening of [p], then 2n
    backslashes, then the closing mark. If the argument is [p], then [n]
    backslashes, a quotation mark and [q], the text appended is the
    opening of [p], then 2n+1 backslashes, then that mark, then what is
    written for [q]. In both the opening of [p] does not end in a
    backslash. *)
Theorem C7_escaping_law
    (p q : wstring) (n : nat) (CommandLine0 : wstring) (Force : bool) :
  ends_with_backslash p = false ->
  (short (p ++ copies n BACKSLASH) ->
   unquoted (p ++ copies n BACKSLASH) Force = false ->
   exists x,
     ArgvQuote p [] true = Some (x ++ [DQUOTE])
     /\ ends_with_backslash x = false
     /\ ArgvQuote (p ++ copies n BACKSLASH) CommandLine0 Force
        = Some (CommandLine0 ++ x ++ copies (2 * n) BACKSLASH ++ [DQUOTE]))
  /\ (short (p ++ copies n BACKSLASH ++ DQUOTE :: q) ->
      exists x y,
        ArgvQuote p [] true = Some (x ++ [DQUOTE])
        /\ ArgvQuote q [] true = Some (DQUOTE :: y)
        /\ ends_with_backslash x = false
        /\ ArgvQuote (p ++ copies n BACKSLASH ++ DQUOTE :: q) CommandLine0 Force
           = Some (CommandLine0 ++ x ++ copies (2 * n + 1) BACKSLASH
                     ++ DQUOTE :: y)).
Proof.
  intros Hp. split.
  - intros Hshort Hquoted. exists ([DQUOTE] ++ escaped p 0). repeat split.
    + rewrite ArgvQuote_eq, encoding_short by (eapply short_app_l; eassumption).
      unfold short_encoding. now rewrite quoted_by_force.
    + now apply opening_ends.
    + rewrite ArgvQuote_eq, encoding_short by assumption.
      unfold short_encoding. rewrite Hquoted.
      rewrite escaped_app by assumption.
      rewrite <- (app_nil_r (copies n BACKSLASH)) at 1.
      rewrite escaped_backslashes. cbn [escaped Nat.add].
      rewrite (Nat.mul_comm n 2). now rewrite <- !app_assoc.
  - intros Hshort.
    exists ([DQUOTE] ++ escaped p 0), (escaped q 0 ++ [DQUOTE]). repeat split.
    + rewrite ArgvQuote_eq, encoding_short by (eapply short_app_l; eassumption).
      unfold short_encoding. now rewrite quoted_by_force.
    + rewrite ArgvQuote_eq, encoding_short.
      * unfold short_encoding. now rewrite quoted_by_force.
      * apply short_app_r, short_app_r, short_tail in Hshort. exact Hshort.
    + now apply opening_ends.
    + rewrite ArgvQuote_eq, encoding_short by assumption.
      unfold short_encoding.
      rewrite app_assoc, quoted_by_mark, <- app_assoc.
      rewrite escaped_app by assumption.
      rewrite escaped_backslashes, escaped_quote. cbn [Nat.add].
      rewrite (Nat.mul_comm n 2). now rewrite <- !app_assoc.
Qed.

(** The law at the argument [a b], two backslashes, and at the same
    followed by a quotation mark and [c]. *)
Lemma C7_escaping_law_witness :
  ArgvQuote (L "a b" ++ copies 2 BACKSLASH) [] false
  = Some ([DQUOTE] ++ L "a b" ++ copies 4 BACKSLASH ++ [DQUOTE])
  /\ ArgvQuote (L "a b" ++ copies 2 BACKSLASH ++ DQUOTE :: L "c") [] false
     = Some ([DQUOTE] ++ L "a b" ++ copies 5 BACKSLASH
               ++ DQUOTE :: L "c" ++ [DQUOTE]).
Proof.
  destruct (C7_escaping_law (L "a b") (L "c") 2 [] false eq_refl)
    as [Hend Hmark].
  assert (Hopening : forall x,
             ArgvQuote (L "a b") [] true = Some (x ++ [DQUOTE]) ->
             x = DQUOTE :: L "a b").
  { intros x Hx.
    assert (Hx' : x ++ [DQUOTE] = (DQUOTE :: L "a b") ++ [DQUOTE])
      by (injection Hx as <-; reflexivity).
    now apply app_inj_tail in Hx' as [-> _]. }
  split.
  - destruct (Hend eq_refl eq_refl) as (x & Hx & _ & H).
    apply Hopening in Hx as ->. exact H.
  - destruct (Hmark eq_refl) as (x & y & Hx & Hy & _ & H).
    apply Hopening in Hx as ->.
    assert (Hy' : y = L "c" ++ [DQUOTE])
      by (injection Hy as <-; reflexivity).
    rewrite Hy' in H. exact H.
Defined.

(** * Properties of the command line *)

(** C2: the round trip. For every sequence of arguments after the
    program name and the time, each shorter than 2^31 characters (as
    the arguments of [wmain] are), the loop of lines 144-149 returns a
    command line, and the tokenizer reads from it the same arguments,
    element for element. *)
Theorem C2_round_trip (program time : wstring) (arguments : list wstring) :
  Forall short arguments ->
  exists command_line,
    build_command_line (length (program :: time :: arguments))
      (program :: time :: arguments) = Some command_line
    /\ CommandLineToArgvW command_line = arguments.
Proof.
  intros Hshort. exists (joined arguments). split.
  - rewrite build_command_line_eq by (simpl; lia). reflexivity.
  - now apply tokenize_joined.
Qed.

(** The round trip on the example of the specification: [a], [b c], a
    quoted [x], a backslash, two backslashes and a quotation mark, and
    the empty string. *)
Lemma C2_round_trip_witness :
  exists command_line,
    build_command_line 8
      [L "timeout"; L "100"; L "a"; L "b c"; [DQUOTE; 120; DQUOTE];
       [BACKSLASH]; [BACKSLASH; BACKSLASH; DQUOTE]; []]
    = Some command_line
    /\ CommandLineToArgvW command_line
       = [L "a"; L "b c"; [DQUOTE; 120; DQUOTE];
          [BACKSLASH]; [BACKSLASH; BACKSLASH; DQUOTE]; []].
Proof.
  apply (C2_round_trip (L "timeout") (L "100")
           [L "a"; L "b c"; [DQUOTE; 120; DQUOTE];
            [BACKSLASH]; [BACKSLASH; BACKSLASH; DQUOTE]; []]).
  repeat constructor.
Defined.

(** C3, at the arguments [a] and [b]: the command line built is [a b]
    followed by a space. The test of line 146 repeats the test of the
    loop, so the separator is written after the last argument too. *)
Theorem C3_separator_after_last_argument :
  build_command_line 4 [L "timeout"; L "100"; L "a"; L "b"] = Some (L "a b ")
  /\ L "a b " <> L "a b".
Proof. split; [reflexivity | discriminate]. Qed.

(** * Properties of the supervisor *)

(** C1, at a thread that has ended when it is probed: creation
    succeeds, the wait times out, termination succeeds and the probe
    answers WAIT_OBJECT_0, which is no error; the run writes the message
    of lines 200-201 and returns 125, not 124. Line 199 applies [!] to
    the answer, which is zero for WAIT_OBJECT_0 and not for
    WAIT_FAILED. *)
Theorem C1_ended_thread_taken_for_failure :
  created host_thread_ended = Some child
  /\ waited_process host_thread_ended = WAIT_TIMEOUT
  /\ terminated host_thread_ended <> 0
  /\ waited_thread host_thread_ended = WAIT_OBJECT_0
  /\ waited_thread host_thread_ended <> WAIT_FAILED
  /\ run host_thread_ended argv_child
     = Some (125,
             mk_world [CreateProcessW (L "child ");
                       WaitForSingleObject 11 100;
                       TerminateProcess 11 0;
                       WaitForSingleObject 12 0;
                       CloseHandle 12;
                       CloseHandle 11]
                      [Probe_failed 0]).
Proof. repeat split; discriminate. Qed.

(** The same run with a probe that fails returns 124. *)
Example failed_probe_passes :
  option_map fst
    (run (mk_host (fun _ => Converted 100) (Some child) 5
            WAIT_TIMEOUT 1 WAIT_FAILED None) argv_child)
  = Some 124.
Proof. reflexivity. Qed.

(** C4: the handles are released once each. Every run returns; when
    CreateProcessW was called and answered TRUE, the calls of
    CloseHandle in the run are two, one on the thread handle and one on
    the process handle, so each handle is closed once when the two
    differ; when the child was not created no handle was received and
    CloseHandle is not called. *)
Theorem C4_handles_released_once (host : Host) (argv : list wstring) :
  exists code w,
    run host argv = Some (code, w)
    /\ (forall pi,
          process_created host w = Some pi ->
          released w = [hThread pi; hProcess pi]
          /\ (hProcess pi <> hThread pi ->
              count_occ Z.eq_dec (released w) (hProcess pi) = 1%nat
              /\ count_occ Z.eq_dec (released w) (hThread pi) = 1%nat))
    /\ (process_created host w = None -> released w = []).
Proof.
  destruct (run_shape host argv) as (code & w & Hrun & Hshape).
  exists code, w. split; [exact Hrun|].
  destruct Hshape as [m Hm | command_line m code Hnone Hm
                     | command_line pi code made written Hsome Hmade Hwritten];
    unfold process_created, released; cbn [calls existsb is_CreateProcessW orb flat_map app].
  - split; [discriminate | reflexivity].
  - rewrite Hnone. split; [discriminate | reflexivity].
  - rewrite (closes_after made _ Hmade), Hsome. cbn [flat_map app]. split; [|discriminate].
    intros pi' Hpi. injection Hpi as <-. split; [reflexivity|].
    intros Hdiff. cbn [count_occ].
    destruct (Z.eq_dec (hThread pi) (hProcess pi)); [congruence|].
    destruct (Z.eq_dec (hProcess pi) (hProcess pi)); [|congruence].
    destruct (Z.eq_dec (hThread pi) (hThread pi)); [|congruence].
    destruct (Z.eq_dec (hProcess pi) (hThread pi)); [congruence|].
    split; reflexivity.
Qed.

(** The guards at a child that ends in time with code 42. *)
Lemma C4_handles_released_once_witness :
  exists code w,
    run (mk_host (fun _ => Converted 100) (Some child) 0
           WAIT_OBJECT_0 0 0 (Some 42)) argv_child = Some (code, w)
    /\ released w = [12; 11]
    /\ count_occ Z.eq_dec (released w) 11 = 1%nat
    /\ count_occ Z.eq_dec (released w) 12 = 1%nat.
Proof.
  destruct (C4_handles_released_once
              (mk_host (fun _ => Converted 100) (Some child) 0
                 WAIT_OBJECT_0 0 0 (Some 42)) argv_child)
    as (code & w & Hrun & Hcreated & _).
  exists code, w. split; [exact Hrun|].
  assert (Hw : process_created
                 (mk_host (fun _ => Converted 100) (Some child) 0
                    WAIT_OBJECT_0 0 0 (Some 42)) w = Some child).
  { vm_compute in Hrun. injection Hrun as _ <-. reflexivity. }
  destruct (Hcreated child Hw) as [Hreleased Hcount].
  split; [exact Hreleased|].
  apply Hcount. discriminate.
Defined.

(** C5, at a probe that fails: creation succeeds, the wait times out,
    termination succeeds and the probe of the thread handle answers
    WAIT_FAILED, the error of that call. The run writes no message and
    returns 124, not the 125 of a failed check after termination: the
    test of line 199 is on zero, and WAIT_FAILED is not zero. *)
Theorem C5_failed_probe_returns_124 :
  created (host_created WAIT_TIMEOUT 1 WAIT_FAILED None) = Some child
  /\ waited_process (host_created WAIT_TIMEOUT 1 WAIT_FAILED None) = WAIT_TIMEOUT
  /\ terminated (host_created WAIT_TIMEOUT 1 WAIT_FAILED None) <> 0
  /\ waited_thread (host_created WAIT_TIMEOUT 1 WAIT_FAILED None) = WAIT_FAILED
  /\ run (host_created WAIT_TIMEOUT 1 WAIT_FAILED None) argv_child
     = Some (124,
             mk_world [CreateProcessW (L "child ");
                       WaitForSingleObject 11 100;
                       TerminateProcess 11 0;
                       WaitForSingleObject 12 0;
                       CloseHandle 12;
                       CloseHandle 11]
                      []).
Proof. repeat split; discriminate. Qed.

(** C6: when the child ends in time and its exit code is read, the exit
    status of the launcher is that code, for every code a [DWORD] can
    hold; the [int] that [wmain] returns is the code itself when the
    code is below 2^31. *)
Theorem C6_exit_code_passed_through
    (host : Host) (argv : list wstring) (time_out : DWORD)
    (pi : PROCESS_INFORMATION) (c : DWORD) :
  (3 <= length argv)%nat ->
  stoul host (nth 1 argv []) = Converted time_out ->
  created host = Some pi ->
  waited_process host = WAIT_OBJECT_0 ->
  exit_code host = Some c ->
  0 <= c < 2 ^ 32 ->
  exists code w,
    run host argv = Some (code, w)
    /\ exit_status code = c
    /\ (c < 2 ^ 31 -> code = c).
Proof.
  intros Hargc Hstoul Hcreated Hwait Hcode Hrange.
  rewrite (run_completed host argv time_out pi c) by assumption.
  do 2 eexists. split; [reflexivity|]. split.
  - unfold exit_status. now apply int_of_DWORD_bits.
  - intros Hsmall. apply int_of_DWORD_small. lia.
Qed.

(** A child that ends with code 42, and one that ends with code
    3221225477 (0xC0000005, an access violation). *)
Lemma C6_exit_code_passed_through_witness :
  (exists w,
      run (mk_host (fun _ => Converted 100) (Some child) 0
             WAIT_OBJECT_0 0 0 (Some 42)) argv_child = Some (42, w))
  /\ exists code w,
      run (mk_host (fun _ => Converted 100) (Some child) 0
             WAIT_OBJECT_0 0 0 (Some 3221225477)) argv_child = Some (code, w)
      /\ exit_status code = 3221225477.
Proof.
  split.
  - destruct (C6_exit_code_passed_through
                (mk_host (fun _ => Converted 100) (Some child) 0
                   WAIT_OBJECT_0 0 0 (Some 42)) argv_child 100 child 42)
      as (code & w & Hrun & _ & Hsame);
      try reflexivity; try (simpl; lia).
    exists w. rewrite (Hsame ltac:(lia)) in Hrun. exact Hrun.
  - destruct (C6_exit_code_passed_through
                (mk_host (fun _ => Converted 100) (Some child) 0
                   WAIT_OBJECT_0 0 0 (Some 3221225477))
                argv_child 100 child 3221225477)
      as (code & w & Hrun & Hstatus & _);
      try reflexivity; try (simpl; lia).
    exists code, w. split; [exact Hrun | exact Hstatus].
Defined.

(** C10: the exit code of the child is a [DWORD] and [wmain] returns an
    [int]. For a code of 2^31 or more the value returned is the code
    less 2^32: negative, equal to the code modulo 2^32, and not the
    code. *)
Theorem C10_large_exit_code_wraps
    (host : Host) (argv : list wstring) (time_out : DWORD)
    (pi : PROCESS_INFORMATION) (c : DWORD) :
  (3 <= length argv)%nat ->
  stoul host (nth 1 argv []) = Converted time_out ->
  created host = Some pi ->
  waited_process host = WAIT_OBJECT_0 ->
  exit_code host = Some c ->
  2 ^ 31 <= c < 2 ^ 32 ->
  exists w,
    run host argv = Some (c - 2 ^ 32, w)
    /\ - 2 ^ 31 <= c - 2 ^ 32 < 0
    /\ (c - 2 ^ 32) mod 2 ^ 32 = c
    /\ c - 2 ^ 32 <> c.
Proof.
  intros Hargc Hstoul Hcreated Hwait Hcode Hrange.
  rewrite (run_completed host argv time_out pi c) by assumption.
  rewrite int_of_DWORD_large by assumption.
  eexists. split; [reflexivity|]. repeat split; try lia.
  rewrite <- (int_of_DWORD_large c Hrange).
  apply int_of_DWORD_bits. lia.
Qed.

(** A child that ends with code 3221225477. *)
Lemma C10_large_exit_code_wraps_witness :
  exists w,
    run (mk_host (fun _ => Converted 100) (Some child) 0
           WAIT_OBJECT_0 0 0 (Some 3221225477)) argv_child
    = Some (-1073741819, w).
Proof.
  destruct (C10_large_exit_code_wraps
              (mk_host (fun _ => Converted 100) (Some child) 0
                 WAIT_OBJECT_0 0 0 (Some 3221225477))
              argv_child 100 child 3221225477)
    as (w & Hrun & _);
    try reflexivity; try (simpl; lia).
  exists w. exact Hrun.
Defined.

(** * Further properties of the argument quoter *)

Lemma escaped_length (s : wstring) :
  forall nb,
    (nb + length s <= length (escaped s nb) <= 2 * (nb + length s))%nat.
Proof.
  induction s as [|c s IH]; intros nb; cbn [escaped length].
  - unfold copies. rewrite repeat_length. lia.
  - destruct (c =? BACKSLASH).
    + specialize (IH (S nb)). lia.
    + specialize (IH 0%nat).
      destruct (c =? DQUOTE); unfold copies;
        rewrite !length_app, repeat_length; cbn [length]; lia.
Qed.

Lemma not_special (c : wchar) :
  existsb (Z.eqb c) special = false <-> ~ In c special.
Proof.
  split.
  - intros H Hin.
    assert (E : existsb (Z.eqb c) special = true)
      by (apply existsb_exists; exists c; split; [exact Hin | apply Z.eqb_refl]).
    congruence.
  - intros H. destruct (existsb (Z.eqb c) special) eqn:E; [|reflexivity].
    apply existsb_exists in E as (x & Hx & Hcx).
    apply Z.eqb_eq in Hcx. subst x. contradiction.
Qed.

Lemma find_first_of_from_plain (s chars : wstring) (pos : nat) :
  Forall (fun c => existsb (Z.eqb c) chars = false) s ->
  find_first_of_from s chars pos = None.
Proof.
  intros H. revert pos.
  induction H as [|c s Hc Hs IH]; intros pos; simpl; [reflexivity|].
  rewrite Hc. apply IH.
Qed.

Lemma unquoted_iff (Argument : wstring) (Force : bool) :
  unquoted Argument Force = true
  <-> Force = false /\ Argument <> [] /\ Forall (fun c => ~ In c special) Argument.
Proof.
  split.
  - intros H. pose proof (unquoted_plain _ _ H) as [Hne Hall].
    unfold unquoted in H. destruct Force; [discriminate|].
    repeat split; auto.
    eapply Forall_impl; [|exact Hall]. intros c. apply not_special.
  - intros (-> & Hne & Hall). unfold unquoted, find_first_of.
    rewrite find_first_of_from_plain.
    + destruct Argument; [congruence|reflexivity].
    + eapply Forall_impl; [|exact Hall]. intros c. apply not_special.
Qed.

(** X1: the fast path. For an argument shorter than 2^31 characters,
    [ArgvQuote] appends the argument as it is exactly when [Force] is
    false, the argument is not empty and none of its characters is a
    space, a tab, a newline, a vertical tab or a quotation mark. *)
Theorem X1_appended_unchanged_iff
    (Argument CommandLine0 : wstring) (Force : bool) :
  short Argument ->
  ArgvQuote Argument CommandLine0 Force = Some (CommandLine0 ++ Argument)
  <-> Force = false /\ Argument <> []
      /\ Forall (fun c => ~ In c special) Argument.
Proof.
  intros Hshort. rewrite <- unquoted_iff, ArgvQuote_eq. split.
  - intros H. injection H as H. apply app_inv_head in H.
    rewrite encoding_short in H by assumption. unfold short_encoding in H.
    destruct (unquoted Argument Force); [reflexivity|].
    apply (f_equal (@length wchar)) in H.
    rewrite !length_app in H. cbn [length] in H.
    pose proof (escaped_length Argument 0). lia.
  - intros H. unfold encoding. now rewrite H.
Qed.

Lemma X1_appended_unchanged_iff_witness :
  ArgvQuote (L "a\b") (L "x ") false = Some (L "x " ++ L "a\b")
  <-> false = false /\ L "a\b" <> []
      /\ Forall (fun c => ~ In c special) (L "a\b").
Proof.
  apply (X1_appended_unchanged_iff (L "a\b") (L "x ") false).
  unfold short. simpl. lia.
Defined.

(** X2: the quoted form and its length. When an argument shorter than
    2^31 characters is quoted (forced, empty, or with one of the five
    characters), what is appended is a quotation mark, a text and a
    quotation mark, and the text has at least as many characters as the
    argument and at most twice as many. *)
Theorem X2_quoted_form_length
    (Argument CommandLine0 : wstring) (Force : bool) :
  short Argument ->
  unquoted Argument Force = false ->
  exists text,
    ArgvQuote Argument CommandLine0 Force
    = Some (CommandLine0 ++ [DQUOTE] ++ text ++ [DQUOTE])
    /\ (length Argument <= length text <= 2 * length Argument)%nat.
Proof.
  intros Hshort Hquoted. exists (escaped Argument 0). split.
  - rewrite ArgvQuote_eq, encoding_short by assumption.
    unfold short_encoding. now rewrite Hquoted.
  - pose proof (escaped_length Argument 0). lia.
Qed.

Lemma X2_quoted_form_length_witness :
  exists text,
    ArgvQuote [BACKSLASH; DQUOTE] [] false
    = Some ([] ++ [DQUOTE] ++ text ++ [DQUOTE])
    /\ (length [BACKSLASH; DQUOTE] <= length text
        <= 2 * length [BACKSLASH; DQUOTE])%nat.
Proof.
  apply (X2_quoted_form_length [BACKSLASH; DQUOTE] [] false).
  - unfold short. simpl. lia.
  - reflexivity.
Defined.

Lemma escaped_verbatim (p : wstring) (c : wchar) :
  ~ In DQUOTE (p ++ [c]) ->
  c <> BACKSLASH ->
  forall nb, escaped (p ++ [c]) nb = copies nb BACKSLASH ++ p ++ [c].
Proof.
  intros Hq Hc. induction p as [|a p IH]; intros nb; cbn [app escaped].
  - destruct (Z.eqb_spec c BACKSLASH); [contradiction|].
    destruct (Z.eqb_spec c DQUOTE) as [->|_]; [exfalso; apply Hq; now left|].
    reflexivity.
  - assert (Hq' : ~ In DQUOTE (p ++ [c])) by (intros H; apply Hq; now right).
    destruct (Z.eqb_spec a BACKSLASH) as [->|_].
    + rewrite IH by assumption. apply copies_shift.
    + destruct (Z.eqb_spec a DQUOTE) as [->|_]; [exfalso; apply Hq; now left|].
      rewrite IH by assumption. reflexivity.
Qed.

(** X3: backslashes are kept where they are not special. When an
    argument shorter than 2^31 characters is quoted, has no quotation
    mark and does not end in a backslash, what is appended is the
    argument between two quotation marks, character for character. *)
Theorem X3_wrapped_verbatim
    (Argument CommandLine0 : wstring) (Force : bool) :
  short Argument ->
  unquoted Argument Force = false ->
  ~ In DQUOTE Argument ->
  ends_with_backslash Argument = false ->
  ArgvQuote Argument CommandLine0 Force
  = Some (CommandLine0 ++ [DQUOTE] ++ Argument ++ [DQUOTE]).
Proof.
  intros Hshort Hquoted Hmark Hend.
  rewrite ArgvQuote_eq, encoding_short by assumption.
  unfold short_encoding. rewrite Hquoted.
  destruct (no_backslash_at_end Argument Hend) as [->|(p & c & -> & Hc)].
  - reflexivity.
  - now rewrite escaped_verbatim.
Qed.

Lemma X3_wrapped_verbatim_witness :
  ArgvQuote (L "C:\my dir\x") [] false
  = Some ([] ++ [DQUOTE] ++ L "C:\my dir\x" ++ [DQUOTE]).
Proof.
  apply (X3_wrapped_verbatim (L "C:\my dir\x") [] false).
  - unfold short. simpl. lia.
  - reflexivity.
  - simpl. intros H. repeat (destruct H as [H|H]; [discriminate H|]). exact H.
  - reflexivity.
Defined.

Lemma wrap_wrap_succ (x k : Z) : wrap (wrap (x + 1) + k) = wrap (x + (k + 1)).
Proof.
  unfold wrap. rewrite Zplus_mod_idemp_l. f_equal. lia.
Qed.

Lemma body_backslashes_only (k : nat) :
  forall nb,
    body (copies k BACKSLASH) nb
    = backslashes (wrap (2 * (nb + Z.of_nat k))).
Proof.
  induction k as [|k IH]; intros nb; cbn [copies repeat body].
  - f_equal. f_equal. lia.
  - change (BACKSLASH =? BACKSLASH) with true. cbv iota.
    change (repeat BACKSLASH k) with (copies k BACKSLASH). rewrite IH.
    f_equal. unfold wrap.
    rewrite <- Zmult_mod_idemp_r, Zplus_mod_idemp_l, Zmult_mod_idemp_r.
    f_equal. lia.
Qed.

(** X4: the counter of backslashes is an [unsigned]. A forced argument
    of [k] backslashes is written as a quotation mark, [2k] modulo 2^32
    backslashes and a quotation mark: the doubling is exact as long as
    [2k] is below 2^32 and wraps around from there. *)
Theorem X4_backslash_run_modulo (k : nat) (CommandLine0 : wstring) :
  ArgvQuote (copies k BACKSLASH) CommandLine0 true
  = Some (CommandLine0 ++ [DQUOTE]
            ++ copies (Z.to_nat ((2 * Z.of_nat k) mod 2 ^ 32)) BACKSLASH
            ++ [DQUOTE]).
Proof.
  rewrite ArgvQuote_eq. unfold encoding. rewrite quoted_by_force.
  rewrite body_backslashes_only. reflexivity.
Qed.

Lemma ends_with_backslash_app (a b : wstring) :
  b <> [] -> ends_with_backslash (a ++ b) = ends_with_backslash b.
Proof.
  intros Hb. unfold ends_with_backslash. rewrite rev_app_distr.
  destruct (rev b) as [|c r] eqn:E; [|reflexivity].
  apply (f_equal (@rev wchar)) in E. rewrite rev_involutive in E.
  contradiction.
Qed.

Lemma ends_with_backslash_cons (c : wchar) (p : wstring) :
  c <> BACKSLASH ->
  ends_with_backslash p = false ->
  ends_with_backslash (c :: p) = false.
Proof.
  intros Hc Hp. destruct p as [|d p].
  - unfold ends_with_backslash. simpl. now apply Z.eqb_neq.
  - change (c :: d :: p) with ([c] ++ d :: p).
    rewrite ends_with_backslash_app by discriminate. exact Hp.
Qed.

(** Where a quotation mark can be in a text that starts with
    backslashes. *)
Lemma mark_after_backslashes (n : nat) (l pre post : wstring) :
  copies n BACKSLASH ++ l = pre ++ DQUOTE :: post ->
  exists pre2, pre = copies n BACKSLASH ++ pre2 /\ l = pre2 ++ DQUOTE :: post.
Proof.
  revert pre. induction n as [|n IH]; intros pre H; cbn [copies repeat app] in *.
  - exists pre. auto.
  - destruct pre as [|c pre]; [discriminate H|].
    injection H as <- H. destruct (IH pre H) as (pre2 & -> & ->).
    exists pre2. auto.
Qed.

Lemma marks_of_escaped (s : wstring) :
  forall nb pre post,
    escaped s nb = pre ++ DQUOTE :: post ->
    exists before k,
      pre = before ++ copies (2 * k + 1) BACKSLASH
      /\ ends_with_backslash before = false.
Proof.
  induction s as [|c s IH]; intros nb pre post H; cbn [escaped] in H.
  - rewrite <- (app_nil_r (copies (nb * 2) BACKSLASH)) in H.
    apply mark_after_backslashes in H as (pre2 & _ & H).
    destruct pre2; discriminate H.
  - destruct (Z.eqb_spec c BACKSLASH) as [->|Hbs]; [eauto|].
    assert (Hrest : forall run pre2,
               pre = copies run BACKSLASH ++ c :: pre2 ->
               escaped s 0 = pre2 ++ DQUOTE :: post ->
               exists before k,
                 pre = before ++ copies (2 * k + 1) BACKSLASH
                 /\ ends_with_backslash before = false).
    { intros run pre2 -> H2.
      destruct (IH _ _ _ H2) as (before & k & -> & Hbefore).
      exists (copies run BACKSLASH ++ c :: before), k. split.
      - now rewrite <- app_assoc.
      - rewrite ends_with_backslash_app by discriminate.
        now apply ends_with_backslash_cons. }
    destruct (Z.eqb_spec c DQUOTE) as [->|Hdq];
      apply mark_after_backslashes in H as (pre2 & Hpre & H);
      cbn [app] in H; destruct pre2 as [|d pre2].
    + exists [], nb. rewrite Hpre, app_nil_r. split; [|reflexivity].
      cbn [app]. f_equal. lia.
    + injection H as <- H. eauto.
    + injection H as H _. contradiction.
    + injection H as <- H. eauto.
Qed.

(** X17: quotation marks inside the quoted form. When an argument
    shorter than 2^31 characters is quoted, every quotation mark of the
    text between the two delimiters comes directly after a run of
    backslashes of odd length. *)
Theorem X17_inner_marks_escaped
    (Argument CommandLine0 : wstring) (Force : bool) :
  short Argument ->
  unquoted Argument Force = false ->
  exists text,
    ArgvQuote Argument CommandLine0 Force
    = Some (CommandLine0 ++ [DQUOTE] ++ text ++ [DQUOTE])
    /\ forall pre post,
         text = pre ++ DQUOTE :: post ->
         exists before k,
           pre = before ++ copies (2 * k + 1) BACKSLASH
           /\ ends_with_backslash before = false.
Proof.
  intros Hshort Hquoted. exists (escaped Argument 0). split.
  - rewrite ArgvQuote_eq, encoding_short by assumption.
    unfold short_encoding. now rewrite Hquoted.
  - intros pre post H. eapply marks_of_escaped. exact H.
Qed.

Lemma X17_inner_marks_escaped_witness :
  exists text,
    ArgvQuote [97; BACKSLASH; DQUOTE; 98] [] false
    = Some ([] ++ [DQUOTE] ++ text ++ [DQUOTE])
    /\ forall pre post,
         text = pre ++ DQUOTE :: post ->
         exists before k,
           pre = before ++ copies (2 * k + 1) BACKSLASH
           /\ ends_with_backslash before = false.
Proof.
  apply (X17_inner_marks_escaped [97; BACKSLASH; DQUOTE; 98] [] false).
  - unfold short. simpl. lia.
  - reflexivity.
Defined.

(** X5: what the loop of lines 64-88 keeps at every step. After any
    number of steps from the start the iterator is within the argument
    or at its end, and the buffer is the buffer of the start followed by
    a text. The counter is, modulo 2^32, the length [k] of the run of
    backslashes that ends just before the iterator: the [k] characters
    before the iterator are backslashes and the one before them, if
    there is one, is not. At the chain of tests the character under the
    iterator is not a backslash. *)
Theorem X5_loop_keeps_bounds_and_buffer
    (Argument CommandLine0 : wstring) (n : nat) :
  let s := Nat.iter n (step Argument) (mk_state 0 0 CommandLine0 While_test) in
  (It s <= length Argument)%nat
  /\ (exists text, CommandLine s = CommandLine0 ++ text)
  /\ (exists k,
        (k <= It s)%nat
        /\ NumberBackslashes s = wrap (Z.of_nat k)
        /\ (forall j, (It s - k <= j < It s)%nat ->
                      nth_error Argument j = Some BACKSLASH)
        /\ ((k < It s)%nat ->
            nth_error Argument (It s - k - 1) <> Some BACKSLASH))
  /\ (at_point s = If_chain -> nth_error Argument (It s) <> Some BACKSLASH).
Proof.
  cbv zeta. induction n as [|n IH]; [|rewrite Nat.iter_succ].
  - cbn. split; [lia|]. split; [exists []; now rewrite app_nil_r|].
    split; [|discriminate].
    exists 0%nat. cbn. split; [lia|]. split; [reflexivity|].
    split; [intros j Hj; lia | intros H; lia].
  - destruct (Nat.iter n (step Argument) (mk_state 0 0 CommandLine0 While_test))
      as [i nb cl pt].
    cbn [It CommandLine NumberBackslashes at_point] in IH.
    destruct IH as (Hi & (text & ->) & (k & Hk & -> & Hrun & Hmax) & Hchain).
    unfold step; cbn [at_point It NumberBackslashes CommandLine].
    destruct pt.
    + destruct (nth_error Argument i) as [c|] eqn:Hc.
      * assert (Hlt : (i < length Argument)%nat)
          by (apply nth_error_Some; congruence).
        destruct (Z.eqb_spec c BACKSLASH) as [->|Hne];
          cbn [It CommandLine NumberBackslashes at_point].
        -- split; [lia|]. split; [eauto|]. split; [|discriminate].
           exists (S k). split; [lia|]. split.
           { unfold wrap. rewrite Zplus_mod_idemp_l. f_equal. lia. }
           split.
           ++ intros j Hj. destruct (Nat.eq_dec j i) as [->|Hji];
                [exact Hc | apply Hrun; lia].
           ++ intros Hlt'.
              replace (S i - S k - 1)%nat with (i - k - 1)%nat by lia.
              apply Hmax. lia.
        -- split; [lia|]. split; [eauto|]. split; [eauto|].
           intros _. rewrite Hc. congruence.
      * cbn [It CommandLine NumberBackslashes at_point].
        split; [lia|]. split; [eauto|]. split; [eauto|].
        intros _. rewrite Hc. discriminate.
    + specialize (Hchain eq_refl).
      destruct (nth_error Argument i) as [c|] eqn:Hc.
      * assert (Hlt : (i < length Argument)%nat)
          by (apply nth_error_Some; congruence).
        assert (Hfresh : exists k0,
                   (k0 <= S i)%nat
                   /\ 0 = wrap (Z.of_nat k0)
                   /\ (forall j, (S i - k0 <= j < S i)%nat ->
                                 nth_error Argument j = Some BACKSLASH)
                   /\ ((k0 < S i)%nat ->
                       nth_error Argument (S i - k0 - 1) <> Some BACKSLASH)).
        { exists 0%nat. split; [lia|]. split; [reflexivity|]. split.
          - intros j Hj. lia.
          - intros _. replace (S i - 0 - 1)%nat with i by lia.
            now rewrite Hc. }
        destruct (c =? DQUOTE); cbn [It CommandLine NumberBackslashes at_point];
          (split; [lia|]; split; [rewrite <- app_assoc; eauto|];
           split; [exact Hfresh | discriminate]).
      * cbn [It CommandLine NumberBackslashes at_point].
        split; [lia|]. split; [rewrite <- app_assoc; eauto|].
        split; [eauto|discriminate].
    + cbn [It CommandLine NumberBackslashes at_point].
      split; [lia|]. split; [eauto|]. split; [eauto|discriminate].
Qed.

(** * Further properties of the command line *)

Lemma joined_app (args1 args2 : list wstring) :
  joined (args1 ++ args2) = joined args1 ++ joined args2.
Proof. unfold joined. now rewrite map_app, concat_app. Qed.

(** X6: command lines compose. The command line of the arguments
    [args1] followed by [args2] is the command line of [args1] followed
    by the command line of [args2]. *)
Theorem X6_command_line_of_append
    (program time : wstring) (args1 args2 : list wstring) :
  exists line1 line2,
    build_command_line (length (program :: time :: args1))
      (program :: time :: args1) = Some line1
    /\ build_command_line (length (program :: time :: args2))
         (program :: time :: args2) = Some line2
    /\ build_command_line (length (program :: time :: args1 ++ args2))
         (program :: time :: args1 ++ args2) = Some (line1 ++ line2).
Proof.
  exists (joined args1), (joined args2).
  rewrite !build_command_line_eq by (simpl; lia). cbn [skipn].
  now rewrite joined_app.
Qed.

(** X7: the command line determines the arguments. Two sequences of
    arguments, each argument shorter than 2^31 characters, that give the
    same command line are the same sequence. *)
Theorem X7_command_line_injective
    (program1 time1 program2 time2 : wstring) (args1 args2 : list wstring) :
  Forall short args1 ->
  Forall short args2 ->
  build_command_line (length (program1 :: time1 :: args1))
    (program1 :: time1 :: args1)
  = build_command_line (length (program2 :: time2 :: args2))
      (program2 :: time2 :: args2) ->
  args1 = args2.
Proof.
  intros H1 H2. rewrite !build_command_line_eq by (simpl; lia).
  cbn [skipn]. intros H. injection H as H.
  rewrite <- (tokenize_joined args1 H1), <- (tokenize_joined args2 H2).
  now rewrite H.
Qed.

Lemma X7_command_line_injective_witness :
  [L "a b"; []] = [L "a b"; []].
Proof.
  apply (X7_command_line_injective (L "timeout") (L "5") (L "t") (L "9")
           [L "a b"; []] [L "a b"; []]).
  - repeat constructor.
  - repeat constructor.
  - reflexivity.
Defined.

(** * Further properties of [wmain] *)

Lemma run_usage (host : Host) (argv : list wstring) :
  (length argv < 3)%nat ->
  run host argv = Some (EXIT_CANCELED, mk_world [] [Usage (nth 0 argv [])]).
Proof.
  intros H. apply Nat.ltb_lt in H. unfold run, wmain. rewrite H.
  reflexivity.
Qed.

Lemma run_not_a_number (host : Host) (argv : list wstring) :
  (3 <= length argv)%nat ->
  stoul host (nth 1 argv []) = invalid_argument
  \/ stoul host (nth 1 argv []) = out_of_range ->
  run host argv = Some (EXIT_CANCELED, mk_world [] [Not_a_number]).
Proof.
  intros H Hstoul. apply Nat.ltb_ge in H. unfold run, wmain. rewrite H.
  destruct Hstoul as [-> | ->]; reflexivity.
Qed.

Lemma run_not_created (host : Host) (argv : list wstring) (time_out : DWORD) :
  (3 <= length argv)%nat ->
  stoul host (nth 1 argv []) = Converted time_out ->
  created host = None ->
  run host argv
  = Some (if last_error host =? ERROR_FILE_NOT_FOUND
          then EXIT_ENOENT else EXIT_CANNOT_INVOKE,
          mk_world [CreateProcessW (joined (skipn 2 argv))]
            [if last_error host =? ERROR_FILE_NOT_FOUND
             then Command_not_found (nth 2 argv [])
             else CreateProcess_failed (last_error host)]).
Proof.
  intros Hargc Hstoul Hcreated. unfold run, wmain.
  apply Nat.ltb_ge in Hargc as Hargc'. rewrite Hargc', Hstoul.
  rewrite build_command_line_eq by lia.
  autorewrite with run. rewrite Hcreated.
  destruct (last_error host =? ERROR_FILE_NOT_FOUND); reflexivity.
Qed.

Lemma supervise_closed_form (host : Host) (pi : PROCESS_INFORMATION)
    (time_out : DWORD) (w : World) :
  supervise host pi time_out w
  = Some (fst (switch_verdict host),
          mk_world
            (calls w ++ WaitForSingleObject (hProcess pi) time_out
               :: switch_calls host pi)
            (wcerr w ++ snd (switch_verdict host))).
Proof.
  unfold supervise, switch_verdict, switch_calls. autorewrite with run.
  destruct (waited_process host =? WAIT_FAILED);
    [autorewrite with run; reflexivity|].
  destruct (waited_process host =? WAIT_TIMEOUT).
  - autorewrite with run. destruct (not_ (terminated host));
      [autorewrite with run; cbn [calls wcerr fst snd];
       now rewrite <- app_assoc|].
    autorewrite with run. destruct (not_ (waited_thread host));
      autorewrite with run; cbn [calls wcerr fst snd];
      rewrite <- !app_assoc, ?app_nil_r; reflexivity.
  - destruct (waited_process host =? WAIT_OBJECT_0).
    + autorewrite with run. destruct (exit_code host);
        autorewrite with run; cbn [calls wcerr fst snd];
        rewrite <- ?app_assoc, ?app_nil_r; reflexivity.
    + autorewrite with run. reflexivity.
Qed.

(** A run that creates the child, in closed form. *)
Lemma run_launched (host : Host) (argv : list wstring)
    (time_out : DWORD) (pi : PROCESS_INFORMATION) :
  (3 <= length argv)%nat ->
  stoul host (nth 1 argv []) = Converted time_out ->
  created host = Some pi ->
  run host argv
  = Some (fst (switch_verdict host),
          mk_world
            (CreateProcessW (joined (skipn 2 argv))
               :: WaitForSingleObject (hProcess pi) time_out
               :: switch_calls host pi
               ++ [CloseHandle (hThread pi); CloseHandle (hProcess pi)])
            (snd (switch_verdict host))).
Proof.
  intros Hargc Hstoul Hcreated.
  rewrite (run_created host argv time_out pi Hargc Hstoul Hcreated).
  rewrite (HandleGuard_run _ _ _ _ _
             (HandleGuard_run _ _ _ _ _
                (supervise_closed_form host pi time_out _))).
  cbn [calls wcerr app]. rewrite <- !app_assoc. reflexivity.
Qed.

Lemma switch_calls_quiet (host : Host) (pi : PROCESS_INFORMATION) :
  Forall not_a_handle_call (switch_calls host pi).
Proof.
  unfold switch_calls.
  repeat match goal with
         | |- context [if ?b then _ else _] => destruct b
         end; repeat constructor.
Qed.

Lemma terminate_in_switch_calls (host : Host) (pi : PROCESS_INFORMATION)
    (h : HANDLE) (c : Z) :
  In (TerminateProcess h c) (switch_calls host pi)
  <-> waited_process host = WAIT_TIMEOUT /\ h = hProcess pi /\ c = 0.
Proof.
  unfold switch_calls.
  destruct (Z.eqb_spec (waited_process host) WAIT_FAILED) as [E|_].
  { rewrite E. split; [intros []|intros [H _]; discriminate H]. }
  destruct (Z.eqb_spec (waited_process host) WAIT_TIMEOUT) as [E|NE].
  - split.
    + intros [H|H]; [injection H as <- <-; auto|].
      destruct (not_ (terminated host)); [destruct H|].
      destruct H as [H|[]]; discriminate H.
    + intros (_ & -> & ->). now left.
  - split; [|intros [H _]; contradiction].
    destruct (waited_process host =? WAIT_OBJECT_0); [|intros []].
    intros [H|[]]; discriminate H.
Qed.

Lemma exit_code_query_in_switch_calls (host : Host)
    (pi : PROCESS_INFORMATION) (h : HANDLE) :
  In (GetExitCodeProcess h) (switch_calls host pi)
  <-> waited_process host = WAIT_OBJECT_0 /\ h = hProcess pi.
Proof.
  unfold switch_calls.
  destruct (Z.eqb_spec (waited_process host) WAIT_FAILED) as [E|_].
  { rewrite E. split; [intros []|intros [H _]; discriminate H]. }
  destruct (Z.eqb_spec (waited_process host) WAIT_TIMEOUT) as [E|_].
  { rewrite E. split; [|intros [H _]; discriminate H].
    intros [H|H]; [discriminate H|].
    destruct (not_ (terminated host)); [destruct H|].
    destruct H as [H|[]]; discriminate H. }
  destruct (Z.eqb_spec (waited_process host) WAIT_OBJECT_0) as [E|NE].
  - split.
    + intros [H|[]]. injection H as <-. auto.
    + intros (_ & ->). now left.
  - split; [intros []|intros [H _]; contradiction].
Qed.

(** Membership in the calls of a run that creates the child, for a call
    that is neither of the first two nor a CloseHandle. *)
Lemma in_launched_calls (c first second : Call) (middle : list Call)
    (h1 h2 : HANDLE) :
  c <> first -> c <> second ->
  (forall h, c <> CloseHandle h) ->
  In c (first :: second :: middle ++ [CloseHandle h1; CloseHandle h2])
  <-> In c middle.
Proof.
  intros H1 H2 H3. split.
  - intros [H|[H|H]]; [congruence|congruence|].
    apply in_app_or in H as [H|[H|[H|[]]]]; [exact H| |];
      exfalso; eapply H3; eauto.
  - intros H. right. right. apply in_or_app. now left.
Qed.

(** X8: a bad invocation calls nothing. Every run returns; it makes no
    call into Win32 exactly when there are fewer than three arguments or
    [std::stoul] throws on the second, and such a run returns 125 and
    writes one message. *)
Theorem X8_bad_invocation_calls_nothing (host : Host) (argv : list wstring) :
  exists code w,
    run host argv = Some (code, w)
    /\ (calls w = []
        <-> ((length argv < 3)%nat
             \/ stoul host (nth 1 argv []) = invalid_argument
             \/ stoul host (nth 1 argv []) = out_of_range))
    /\ (calls w = [] -> code = 125 /\ exists m, wcerr w = [m]).
Proof.
  destruct (Nat.lt_ge_cases (length argv) 3) as [Hlt|Hge].
  { rewrite (run_usage host argv Hlt). do 2 eexists.
    split; [reflexivity|]. cbn [calls wcerr]. split; [tauto|eauto]. }
  destruct (stoul host (nth 1 argv [])) as [time_out| |] eqn:Hstoul.
  - destruct (created host) as [pi|] eqn:Hcreated.
    + rewrite (run_launched host argv time_out pi Hge Hstoul Hcreated).
      do 2 eexists. split; [reflexivity|]. cbn [calls]. split.
      * split; [discriminate|].
        intros [H|[H|H]]; [lia|discriminate H|discriminate H].
      * discriminate.
    + rewrite (run_not_created host argv time_out Hge Hstoul Hcreated).
      do 2 eexists. split; [reflexivity|]. cbn [calls]. split.
      * split; [discriminate|].
        intros [H|[H|H]]; [lia|discriminate H|discriminate H].
      * discriminate.
  - rewrite (run_not_a_number host argv Hge) by (rewrite Hstoul; auto).
    do 2 eexists. split; [reflexivity|]. cbn [calls wcerr].
    split; [tauto|eauto].
  - rewrite (run_not_a_number host argv Hge) by (rewrite Hstoul; auto).
    do 2 eexists. split; [reflexivity|]. cbn [calls wcerr].
    split; [tauto|eauto].
Qed.

(** X9: when the child cannot be created. With three arguments or more
    and a time that converts, if CreateProcessW answers FALSE the run
    calls nothing else (no wait, no CloseHandle), writes one message and
    returns 127 when the last error is ERROR_FILE_NOT_FOUND and 126 for
    any other error. *)
Theorem X9_not_created_outcome
    (host : Host) (argv : list wstring) (time_out : DWORD) :
  (3 <= length argv)%nat ->
  stoul host (nth 1 argv []) = Converted time_out ->
  created host = None ->
  exists command_line,
    build_command_line (length argv) argv = Some command_line
    /\ run host argv
       = Some (if last_error host =? ERROR_FILE_NOT_FOUND then 127 else 126,
               mk_world [CreateProcessW command_line]
                 [if last_error host =? ERROR_FILE_NOT_FOUND
                  then Command_not_found (nth 2 argv [])
                  else CreateProcess_failed (last_error host)]).
Proof.
  intros Hargc Hstoul Hcreated. exists (joined (skipn 2 argv)). split.
  - apply build_command_line_eq. lia.
  - now apply run_not_created with (time_out := time_out).
Qed.

Lemma X9_not_created_outcome_witness :
  exists command_line,
    build_command_line (length argv_child) argv_child = Some command_line
    /\ run (host_not_created 5) argv_child
       = Some (if last_error (host_not_created 5) =? ERROR_FILE_NOT_FOUND
               then 127 else 126,
               mk_world [CreateProcessW command_line]
                 [if last_error (host_not_created 5) =? ERROR_FILE_NOT_FOUND
                  then Command_not_found (nth 2 argv_child [])
                  else CreateProcess_failed (last_error (host_not_created 5))]).
Proof.
  apply (X9_not_created_outcome (host_not_created 5) argv_child 100);
    [simpl; lia | reflexivity | reflexivity].
Defined.

(** X10: the order of the calls when the child is created. The first
    call is CreateProcessW on the command line built from the arguments,
    the second is the wait on the process handle with the time of the
    second argument as it was converted, the last two are CloseHandle on
    the thread handle and then on the process handle, and no call
    between them creates a process or closes a handle: no handle is used
    after it is closed. *)
Theorem X10_order_of_calls
    (host : Host) (argv : list wstring) (time_out : DWORD)
    (pi : PROCESS_INFORMATION) :
  (3 <= length argv)%nat ->
  stoul host (nth 1 argv []) = Converted time_out ->
  created host = Some pi ->
  exists command_line code w between,
    build_command_line (length argv) argv = Some command_line
    /\ run host argv = Some (code, w)
    /\ calls w
       = CreateProcessW command_line
           :: WaitForSingleObject (hProcess pi) time_out
           :: between ++ [CloseHandle (hThread pi); CloseHandle (hProcess pi)]
    /\ Forall not_a_handle_call between.
Proof.
  intros Hargc Hstoul Hcreated.
  rewrite (run_launched host argv time_out pi Hargc Hstoul Hcreated).
  exists (joined (skipn 2 argv)). do 2 eexists. exists (switch_calls host pi).
  split; [apply build_command_line_eq; lia|].
  split; [reflexivity|]. split; [reflexivity|].
  apply switch_calls_quiet.
Qed.

Lemma X10_order_of_calls_witness :
  exists command_line code w between,
    build_command_line (length argv_child) argv_child = Some command_line
    /\ run (host_created WAIT_TIMEOUT 1 WAIT_TIMEOUT None) argv_child
       = Some (code, w)
    /\ calls w
       = CreateProcessW command_line
           :: WaitForSingleObject (hProcess child) 100
           :: between ++ [CloseHandle (hThread child); CloseHandle (hProcess child)]
    /\ Forall not_a_handle_call between.
Proof.
  apply (X10_order_of_calls (host_created WAIT_TIMEOUT 1 WAIT_TIMEOUT None)
           argv_child 100 child);
    [simpl; lia | reflexivity | reflexivity].
Defined.

(** X11: the child is terminated only when the deadline passes. In a
    run that creates the child, TerminateProcess is called exactly when
    the wait answers WAIT_TIMEOUT, and then on the process handle with
    exit code 0; on WAIT_FAILED or any other answer the child is left
    as it is. *)
Theorem X11_terminated_iff_deadline_passed
    (host : Host) (argv : list wstring) (time_out : DWORD)
    (pi : PROCESS_INFORMATION) :
  (3 <= length argv)%nat ->
  stoul host (nth 1 argv []) = Converted time_out ->
  created host = Some pi ->
  exists code w,
    run host argv = Some (code, w)
    /\ forall h c,
         In (TerminateProcess h c) (calls w)
         <-> waited_process host = WAIT_TIMEOUT /\ h = hProcess pi /\ c = 0.
Proof.
  intros Hargc Hstoul Hcreated.
  rewrite (run_launched host argv time_out pi Hargc Hstoul Hcreated).
  do 2 eexists. split; [reflexivity|]. intros h c. cbn [calls].
  rewrite in_launched_calls by discriminate.
  apply terminate_in_switch_calls.
Qed.

Lemma X11_terminated_iff_deadline_passed_witness :
  exists code w,
    run (host_created WAIT_FAILED 1 0 None) argv_child = Some (code, w)
    /\ forall h c,
         In (TerminateProcess h c) (calls w)
         <-> waited_process (host_created WAIT_FAILED 1 0 None) = WAIT_TIMEOUT
             /\ h = hProcess child /\ c = 0.
Proof.
  apply (X11_terminated_iff_deadline_passed
           (host_created WAIT_FAILED 1 0 None) argv_child 100 child);
    [simpl; lia | reflexivity | reflexivity].
Defined.

(** X12: the exit code is read only from a child that has ended. In a
    run that creates the child, GetExitCodeProcess is called exactly
    when the wait answers WAIT_OBJECT_0, and then on the process
    handle. *)
Theorem X12_exit_code_read_iff_ended
    (host : Host) (argv : list wstring) (time_out : DWORD)
    (pi : PROCESS_INFORMATION) :
  (3 <= length argv)%nat ->
  stoul host (nth 1 argv []) = Converted time_out ->
  created host = Some pi ->
  exists code w,
    run host argv = Some (code, w)
    /\ forall h,
         In (GetExitCodeProcess h) (calls w)
         <-> waited_process host = WAIT_OBJECT_0 /\ h = hProcess pi.
Proof.
  intros Hargc Hstoul Hcreated.
  rewrite (run_launched host argv time_out pi Hargc Hstoul Hcreated).
  do 2 eexists. split; [reflexivity|]. intros h. cbn [calls].
  rewrite in_launched_calls by discriminate.
  apply exit_code_query_in_switch_calls.
Qed.

Lemma X12_exit_code_read_iff_ended_witness :
  exists code w,
    run (host_created WAIT_OBJECT_0 0 0 (Some 42)) argv_child = Some (code, w)
    /\ forall h,
         In (GetExitCodeProcess h) (calls w)
         <-> waited_process (host_created WAIT_OBJECT_0 0 0 (Some 42))
             = WAIT_OBJECT_0
             /\ h = hProcess child.
Proof.
  apply (X12_exit_code_read_iff_ended
           (host_created WAIT_OBJECT_0 0 0 (Some 42)) argv_child 100 child);
    [simpl; lia | reflexivity | reflexivity].
Defined.

(** X13: what decides between 124 and 125 after a termination. When
    the child is created, the wait answers WAIT_TIMEOUT and
    TerminateProcess answers TRUE, the thread handle is probed, and the
    run returns 124 without a message exactly when the probe answers a
    value that is not zero (WAIT_TIMEOUT and WAIT_FAILED among them);
    when it answers zero the run returns 125. *)
Theorem X13_verdict_after_termination
    (host : Host) (argv : list wstring) (time_out : DWORD)
    (pi : PROCESS_INFORMATION) :
  (3 <= length argv)%nat ->
  stoul host (nth 1 argv []) = Converted time_out ->
  created host = Some pi ->
  waited_process host = WAIT_TIMEOUT ->
  terminated host <> 0 ->
  exists code w,
    run host argv = Some (code, w)
    /\ In (WaitForSingleObject (hThread pi) 0) (calls w)
    /\ (code = 124 <-> waited_thread host <> 0)
    /\ (code = 125 <-> waited_thread host = 0)
    /\ (wcerr w = [] <-> waited_thread host <> 0).
Proof.
  intros Hargc Hstoul Hcreated Hwait Hterm.
  rewrite (run_launched host argv time_out pi Hargc Hstoul Hcreated).
  do 2 eexists. split; [reflexivity|].
  unfold switch_calls, switch_verdict. rewrite Hwait.
  cbn [Z.eqb WAIT_TIMEOUT WAIT_FAILED Pos.eqb]. unfold not_.
  apply Z.eqb_neq in Hterm. rewrite Hterm. cbn [calls wcerr fst snd].
  split; [right; right; right; now left|].
  destruct (Z.eqb_spec (waited_thread host) 0) as [E|NE]; cbn [fst snd].
  - repeat split; intros H; try discriminate H; try contradiction; auto.
  - repeat split; intros H; try discriminate H; try contradiction; auto.
Qed.

Lemma X13_verdict_after_termination_witness :
  exists code w,
    run (host_created WAIT_TIMEOUT 1 WAIT_FAILED None) argv_child
    = Some (code, w)
    /\ In (WaitForSingleObject (hThread child) 0) (calls w)
    /\ (code = 124
        <-> waited_thread (host_created WAIT_TIMEOUT 1 WAIT_FAILED None) <> 0)
    /\ (code = 125
        <-> waited_thread (host_created WAIT_TIMEOUT 1 WAIT_FAILED None) = 0)
    /\ (wcerr w = []
        <-> waited_thread (host_created WAIT_TIMEOUT 1 WAIT_FAILED None) <> 0).
Proof.
  apply (X13_verdict_after_termination
           (host_created WAIT_TIMEOUT 1 WAIT_FAILED None) argv_child 100 child);
    [simpl; lia | reflexivity | reflexivity | reflexivity | discriminate].
Defined.

(** X14: when the child cannot be terminated. When the child is
    created, the wait answers WAIT_TIMEOUT and TerminateProcess answers
    FALSE, the run writes the message of lines 195-196 and returns 125;
    the thread handle is not probed and both handles are closed. *)
Theorem X14_termination_refused
    (host : Host) (argv : list wstring) (time_out : DWORD)
    (pi : PROCESS_INFORMATION) :
  (3 <= length argv)%nat ->
  stoul host (nth 1 argv []) = Converted time_out ->
  created host = Some pi ->
  waited_process host = WAIT_TIMEOUT ->
  terminated host = 0 ->
  exists command_line,
    build_command_line (length argv) argv = Some command_line
    /\ run host argv
       = Some (125,
               mk_world [CreateProcessW command_line;
                         WaitForSingleObject (hProcess pi) time_out;
                         TerminateProcess (hProcess pi) 0;
                         CloseHandle (hThread pi);
                         CloseHandle (hProcess pi)]
                        [TerminateProcess_failed (last_error host)]).
Proof.
  intros Hargc Hstoul Hcreated Hwait Hterm.
  exists (joined (skipn 2 argv)).
  split; [apply build_command_line_eq; lia|].
  rewrite (run_launched host argv time_out pi Hargc Hstoul Hcreated).
  unfold switch_calls, switch_verdict. rewrite Hwait, Hterm. reflexivity.
Qed.

Lemma X14_termination_refused_witness :
  exists command_line,
    build_command_line (length argv_child) argv_child = Some command_line
    /\ run (host_created WAIT_TIMEOUT 0 0 None) argv_child
       = Some (125,
               mk_world [CreateProcessW command_line;
                         WaitForSingleObject (hProcess child) 100;
                         TerminateProcess (hProcess child) 0;
                         CloseHandle (hThread child);
                         CloseHandle (hProcess child)]
                        [TerminateProcess_failed
                           (last_error (host_created WAIT_TIMEOUT 0 0 None))]).
Proof.
  apply (X14_termination_refused
           (host_created WAIT_TIMEOUT 0 0 None) argv_child 100 child);
    [simpl; lia | reflexivity | reflexivity | reflexivity | reflexivity].
Defined.

Lemma switch_verdict_cases (host : Host) :
  (snd (switch_verdict host) = []
   /\ (fst (switch_verdict host) = EXIT_TIMEDOUT
       \/ exists c, exit_code host = Some c
                    /\ fst (switch_verdict host) = int_of_DWORD c))
  \/ (fst (switch_verdict host) = EXIT_CANCELED
      /\ exists m, snd (switch_verdict host) = [m]).
Proof.
  unfold switch_verdict.
  repeat match goal with
         | |- context [if ?b then _ else _] => destruct b
         | |- context [match exit_code ?h with _ => _ end] =>
             destruct (exit_code h) eqn:?
         end; cbn [fst snd]; eauto 6.
Qed.

(** X15: one message for a failure, none otherwise. Every run returns
    and writes at most one message. A run that writes none returns 124
    or the exit code read from the child, converted to [int]; a run that
    writes one returns 125, 126 or 127. *)
Theorem X15_one_message_or_none (host : Host) (argv : list wstring) :
  exists code w,
    run host argv = Some (code, w)
    /\ (wcerr w = []
        /\ (code = 124
            \/ exists c, exit_code host = Some c /\ code = int_of_DWORD c)
        \/ (exists m, wcerr w = [m])
           /\ (code = 125 \/ code = 126 \/ code = 127)).
Proof.
  destruct (Nat.lt_ge_cases (length argv) 3) as [Hlt|Hge].
  { rewrite (run_usage host argv Hlt). do 2 eexists.
    split; [reflexivity|]. right. cbn [wcerr]. eauto. }
  destruct (stoul host (nth 1 argv [])) as [time_out| |] eqn:Hstoul.
  - destruct (created host) as [pi|] eqn:Hcreated.
    + rewrite (run_launched host argv time_out pi Hge Hstoul Hcreated).
      do 2 eexists. split; [reflexivity|]. cbn [wcerr].
      destruct (switch_verdict_cases host)
        as [(-> & [-> | (c & Hc & ->)]) | (-> & m & ->)]; eauto 8.
    + rewrite (run_not_created host argv time_out Hge Hstoul Hcreated).
      do 2 eexists. split; [reflexivity|]. right. cbn [wcerr].
      destruct (last_error host =? ERROR_FILE_NOT_FOUND); eauto.
  - rewrite (run_not_a_number host argv Hge) by (rewrite Hstoul; auto).
    do 2 eexists. split; [reflexivity|]. right. cbn [wcerr]. eauto.
  - rewrite (run_not_a_number host argv Hge) by (rewrite Hstoul; auto).
    do 2 eexists. split; [reflexivity|]. right. cbn [wcerr]. eauto.
Qed.

Lemma int_of_DWORD_range (c : DWORD) :
  - 2 ^ 31 <= int_of_DWORD c < 2 ^ 31.
Proof.
  unfold int_of_DWORD.
  pose proof (Z.mod_pos_bound (c + 2 ^ 31) (2 ^ 32) ltac:(lia)). lia.
Qed.

(** X16: no two exit codes of a child are confused. When two runs on
    the same arguments each create the child, see it end in time and
    read its exit code, the values they return are in the range of
    [int], and they are equal exactly when the two exit codes are. *)
Theorem X16_exit_codes_told_apart
    (host1 host2 : Host) (argv : list wstring) (time1 time2 : DWORD)
    (pi1 pi2 : PROCESS_INFORMATION) (c1 c2 : DWORD) :
  (3 <= length argv)%nat ->
  stoul host1 (nth 1 argv []) = Converted time1 ->
  stoul host2 (nth 1 argv []) = Converted time2 ->
  created host1 = Some pi1 ->
  created host2 = Some pi2 ->
  waited_process host1 = WAIT_OBJECT_0 ->
  waited_process host2 = WAIT_OBJECT_0 ->
  exit_code host1 = Some c1 ->
  exit_code host2 = Some c2 ->
  0 <= c1 < 2 ^ 32 ->
  0 <= c2 < 2 ^ 32 ->
  exists code1 w1 code2 w2,
    run host1 argv = Some (code1, w1)
    /\ run host2 argv = Some (code2, w2)
    /\ - 2 ^ 31 <= code1 < 2 ^ 31
    /\ - 2 ^ 31 <= code2 < 2 ^ 31
    /\ (code1 = code2 <-> c1 = c2).
Proof.
  intros Hargc Hs1 Hs2 Hp1 Hp2 Hw1 Hw2 He1 He2 Hc1 Hc2.
  rewrite (run_completed host1 argv time1 pi1 c1) by assumption.
  rewrite (run_completed host2 argv time2 pi2 c2) by assumption.
  do 4 eexists. split; [reflexivity|]. split; [reflexivity|].
  split; [apply int_of_DWORD_range|]. split; [apply int_of_DWORD_range|].
  split; [|intros ->; reflexivity].
  intros H. rewrite <- (int_of_DWORD_bits c1 Hc1), <- (int_of_DWORD_bits c2 Hc2).
  now rewrite H.
Qed.

Lemma X16_exit_codes_told_apart_witness :
  exists code1 w1 code2 w2,
    run (host_created WAIT_OBJECT_0 0 0 (Some 1)) argv_child = Some (code1, w1)
    /\ run (host_created WAIT_OBJECT_0 0 0 (Some 4294967295)) argv_child
       = Some (code2, w2)
    /\ - 2 ^ 31 <= code1 < 2 ^ 31
    /\ - 2 ^ 31 <= code2 < 2 ^ 31
    /\ (code1 = code2 <-> 1 = 4294967295).
Proof.
  apply (X16_exit_codes_told_apart
           (host_created WAIT_OBJECT_0 0 0 (Some 1))
           (host_created WAIT_OBJECT_0 0 0 (Some 4294967295))
           argv_child 100 100 child child 1 4294967295);
    try reflexivity; simpl; lia.
Defined.

(** X18: the failures that do reach their exit code. Every run returns,
    and by what the host answers: fewer than three arguments give 125;
    a time on which [std::stoul] throws gives 125; CreateProcessW FALSE
    gives 127 at ERROR_FILE_NOT_FOUND and 126 at any other error; once
    the child is created, a wait that answers WAIT_FAILED, a
    TerminateProcess that answers FALSE after WAIT_TIMEOUT, a
    GetExitCodeProcess that answers FALSE after WAIT_OBJECT_0, and a
    wait that answers none of the three values each give 125. In every
    one of these cases the run writes the message of that failure and no
    other. *)
Theorem X18_failure_conditions_and_codes (host : Host) (argv : list wstring) :
  exists code w,
    run host argv = Some (code, w)
    /\ ((length argv < 3)%nat ->
        code = 125 /\ wcerr w = [Usage (nth 0 argv [])])
    /\ ((3 <= length argv)%nat ->
        (stoul host (nth 1 argv []) = invalid_argument
         \/ stoul host (nth 1 argv []) = out_of_range ->
         code = 125 /\ wcerr w = [Not_a_number])
        /\ forall time_out,
             stoul host (nth 1 argv []) = Converted time_out ->
             (created host = None ->
              (last_error host = ERROR_FILE_NOT_FOUND ->
               code = 127 /\ wcerr w = [Command_not_found (nth 2 argv [])])
              /\ (last_error host <> ERROR_FILE_NOT_FOUND ->
                  code = 126
                  /\ wcerr w = [CreateProcess_failed (last_error host)]))
             /\ forall pi,
                  created host = Some pi ->
                  (waited_process host = WAIT_FAILED ->
                   code = 125 /\ wcerr w = [Wait_failed (last_error host)])
                  /\ (waited_process host = WAIT_TIMEOUT ->
                      terminated host = 0 ->
                      code = 125
                      /\ wcerr w = [TerminateProcess_failed (last_error host)])
                  /\ (waited_process host = WAIT_OBJECT_0 ->
                      exit_code host = None ->
                      code = 125
                      /\ wcerr w = [GetExitCodeProcess_failed (last_error host)])
                  /\ (waited_process host <> WAIT_FAILED ->
                      waited_process host <> WAIT_TIMEOUT ->
                      waited_process host <> WAIT_OBJECT_0 ->
                      code = 125
                      /\ wcerr w = [Wait_unexpected (last_error host)])).
Proof.
  destruct (Nat.lt_ge_cases (length argv) 3) as [Hlt|Hge].
  { rewrite (run_usage host argv Hlt). do 2 eexists.
    split; [reflexivity|]. cbn [wcerr]. split; [auto|]. intros H. lia. }
  destruct (stoul host (nth 1 argv [])) as [time_out| |] eqn:Hstoul.
  - destruct (created host) as [pi|] eqn:Hcreated.
    + rewrite (run_launched host argv time_out pi Hge Hstoul Hcreated).
      do 2 eexists. split; [reflexivity|]. cbn [wcerr].
      split; [intros H; lia|]. intros _.
      split; [intros [H|H]; discriminate H|].
      intros t _. split; [intros H; discriminate H|].
      intros pi' _. unfold switch_verdict. repeat split.
      * rewrite H. reflexivity.
      * rewrite H. reflexivity.
      * rewrite H, H0. reflexivity.
      * rewrite H, H0. reflexivity.
      * rewrite H, H0. reflexivity.
      * rewrite H, H0. reflexivity.
      * apply Z.eqb_neq in H, H0, H1. rewrite H, H0, H1. reflexivity.
      * apply Z.eqb_neq in H, H0, H1. rewrite H, H0, H1. reflexivity.
    + rewrite (run_not_created host argv time_out Hge Hstoul Hcreated).
      do 2 eexists. split; [reflexivity|]. cbn [wcerr].
      split; [intros H; lia|]. intros _.
      split; [intros [H|H]; discriminate H|].
      intros t _. split; [|intros pi H; discriminate H].
      intros _. split.
      * intros ->. split; reflexivity.
      * intros H. apply Z.eqb_neq in H. rewrite H. split; reflexivity.
  - rewrite (run_not_a_number host argv Hge) by (rewrite Hstoul; auto).
    do 2 eexists. split; [reflexivity|]. cbn [wcerr].
    split; [intros H; lia|]. intros _. split; [auto|].
    intros t H. discriminate H.
  - rewrite (run_not_a_number host argv Hge) by (rewrite Hstoul; auto).
    do 2 eexists. split; [reflexivity|]. cbn [wcerr].
    split; [intros H; lia|]. intros _. split; [auto|].
    intros t H. discriminate H.
Qed.
